(** * Warm transfer server: a model of the Express / Twilio / OpenAI realtime glue

    The development follows the server source function by function.  The
    three correlation tables are finite maps, every call into a provider
    (Twilio REST, OpenAI REST, the realtime websocket, the HTTP response
    object, the console) is an event of an output trace, and every [await]
    on a provider is a point where the running activation parks until the
    event loop delivers the answer.

    Conventions.
    - A JavaScript string is the byte string of its UTF-8 encoding.
    - [undefined] is [None] wherever the source has [string | undefined].
    - The tables are plain objects used as dictionaries; they are modelled
      over their own keys (provider-issued identifiers), as finite maps. *)

From Stdlib Require Import String Ascii List NArith Bool Lia.
From Stdlib Require Import Floats.SpecFloat.
From stdpp Require Import base option list gmap strings.

Open Scope string_scope.
Open Scope list_scope.
Set Warnings "-register-all".

(** ** Strings *)

Module JsString.

(** The double quote character, for template literals that contain it. *)
Definition dq : string := String (ascii_of_nat 34) EmptyString.
(** Line feed, as it occurs inside a multi-line template literal. *)
Definition nl : string := String (ascii_of_nat 10) EmptyString.

Fixpoint spaces (n : nat) : string :=
  match n with
  | O => EmptyString
  | S k => String " " (spaces k)
  end.

(** [String.prototype.toLowerCase], on the ASCII letters. *)
Definition lower_char (c : ascii) : ascii :=
  let n := N_of_ascii c in
  if ((65 <=? n) && (n <=? 90))%N then ascii_of_N (n + 32) else c.

Fixpoint toLowerCase (s : string) : string :=
  match s with
  | EmptyString => EmptyString
  | String c r => String (lower_char c) (toLowerCase r)
  end.

(** [String.prototype.includes]. *)
Fixpoint includes (s needle : string) : bool :=
  String.prefix needle s ||
  match s with
  | EmptyString => false
  | String _ r => includes r needle
  end.

(** A template literal hole, or a property key: [undefined] prints as the
    word. *)
Definition template (v : option string) : string :=
  match v with
  | Some s => s
  | None => "undefined"
  end.

(** A string in a condition: the empty string is falsy. *)
Definition truthy_string (s : string) : bool :=
  match s with
  | EmptyString => false
  | String _ _ => true
  end.

(** *** Percent encoding *)

Definition hex_digit (n : N) : ascii :=
  if (n <? 10)%N then ascii_of_N (48 + n) else ascii_of_N (55 + n).

Definition hex_value (c : ascii) : option N :=
  let n := N_of_ascii c in
  if ((48 <=? n) && (n <=? 57))%N then Some (n - 48)%N
  else if ((65 <=? n) && (n <=? 70))%N then Some (n - 55)%N
  else if ((97 <=? n) && (n <=? 102))%N then Some (n - 87)%N
  else None.

(** The characters [encodeURIComponent] leaves alone: letters, digits and
    [- _ . ! ~ * ' ( )]. *)
Definition uri_unreserved (c : ascii) : bool :=
  let n := N_of_ascii c in
  (((65 <=? n) && (n <=? 90)) || ((97 <=? n) && (n <=? 122)) ||
   ((48 <=? n) && (n <=? 57)) ||
   (n =? 45) || (n =? 95) || (n =? 46) || (n =? 33) || (n =? 126) ||
   (n =? 42) || (n =? 39) || (n =? 40) || (n =? 41))%N.

Fixpoint encodeURIComponent (s : string) : string :=
  match s with
  | EmptyString => EmptyString
  | String c r =>
      if uri_unreserved c then String c (encodeURIComponent r)
      else
        let n := N_of_ascii c in
        String "%" (String (hex_digit (n / 16)) (String (hex_digit (n mod 16))
          (encodeURIComponent r)))
  end.

(** Percent decoding of a form field; [+] has been turned into a space
    before. *)
Fixpoint percent_decode (s : string) : string :=
  match s with
  | EmptyString => EmptyString
  | String c r =>
      match c, r with
      | "%"%char, String h (String l r') =>
          match hex_value h, hex_value l with
          | Some a, Some b => String (ascii_of_N (16 * a + b)) (percent_decode r')
          | _, _ => String c (percent_decode r)
          end
      | _, _ => String c (percent_decode r)
      end
  end.

Fixpoint plus_to_space (s : string) : string :=
  match s with
  | EmptyString => EmptyString
  | String c r => String (if Ascii.eqb c "+" then " "%char else c) (plus_to_space r)
  end.

(** [split_on c s]: the pieces of [s] between occurrences of [c]. *)
Fixpoint split_on (c : ascii) (s : string) : list string :=
  match s with
  | EmptyString => [EmptyString]
  | String d r =>
      if Ascii.eqb d c then EmptyString :: split_on c r
      else
        match split_on c r with
        | [] => [String d EmptyString]
        | p :: ps => String d p :: ps
        end
  end.

(** [cut_at c s]: [s] before and after the first [c]; the second part is
    empty when there is no [c]. *)
Fixpoint cut_at (c : ascii) (s : string) : string * string :=
  match s with
  | EmptyString => (EmptyString, EmptyString)
  | String d r =>
      if Ascii.eqb d c then (EmptyString, r)
      else let '(a, b) := cut_at c r in (String d a, b)
  end.

End JsString.
Import JsString.

(** ** Form bodies *)

(** [new URLSearchParams(rawBody)]: the name/value pairs of a form-encoded
    body, in order.  One leading question mark is dropped, empty pieces are
    skipped. *)
Definition URLSearchParams (rawBody : string) : list (string * string) :=
  let body :=
    match rawBody with
    | String "?" r => r
    | _ => rawBody
    end in
  map (fun piece =>
         let '(n, v) := cut_at "=" piece in
         (percent_decode (plus_to_space n), percent_decode (plus_to_space v)))
      (filter (fun piece => truthy_string piece = true) (split_on "&" body)).

(** [Object.fromEntries]: a later pair replaces an earlier one with the same
    name. *)
Definition Object_fromEntries (entries : list (string * string)) : gmap string string :=
  foldl (fun o '(k, v) => <[k := v]> o) ∅ entries.

(** ** Dynamic values *)

(** What [JSON.parse] returns, with [undefined] added for absent properties.
    A number is the IEEE double the parser produced. *)
Inductive json : Type :=
| JUndefined
| JNull
| JBool (b : bool)
| JNumber (x : spec_float)
| JString (s : string)
| JArray (items : list json)
| JObject (fields : list (string * json)).

Definition nullish (v : json) : bool :=
  match v with
  | JUndefined | JNull => true
  | _ => false
  end.

(** A value in a condition. *)
Definition truthy (v : json) : bool :=
  match v with
  | JUndefined | JNull => false
  | JBool b => b
  | JNumber (S754_zero _) | JNumber S754_nan => false
  | JNumber _ => true
  | JString s => truthy_string s
  | JArray _ | JObject _ => true
  end.

(** A member of an object literal; when a name is repeated the last
    occurrence is the one the parser keeps. *)
Definition field (k : string) (fields : list (string * json)) : json :=
  match last (filter (fun p => bool_decide (fst p = k)) fields) with
  | Some p => snd p
  | None => JUndefined
  end.

(** [v[k]] for a value that is neither [null] nor [undefined], for the keys
    this program reads: the names [type], [response], [output], [name],
    [call_id] and the index [0].  An array or a string answers to the index
    only; a number or a boolean has none of them. *)
Definition property (v : json) (k : string) : json :=
  match v with
  | JObject fields => field k fields
  | JArray items => if bool_decide (k = "0") then hd JUndefined items else JUndefined
  | JString (String c _) =>
      if bool_decide (k = "0") then JString (String c EmptyString) else JUndefined
  | _ => JUndefined
  end.

(** [v?.k] and [v?.[k]]. *)
Definition optional (v : json) (k : string) : json :=
  if nullish v then JUndefined else property v k.

(** [v === "s"]. *)
Definition is_string (v : json) (s : string) : bool :=
  match v with
  | JString t => bool_decide (t = s)
  | _ => false
  end.

(** ** Errors *)

(** A thrown value, as far as the handlers look at it: [e?.name] and
    [e?.message]. *)
Record exn : Type := Exn { exn_name : option string; exn_message : option string }.

Definition Error (message : string) : exn := Exn (Some "Error") (Some message).
Definition TypeError (message : string) : exn := Exn (Some "TypeError") (Some message).

(** ** What the server talks to *)

(** Arguments of [participants.create]. *)
Record participant_params : Type := ParticipantParams {
  p_from : option string;
  p_label : string;
  p_to : string;
  p_earlyMedia : bool;
  p_callToken : option string;
  p_conferenceStatusCallback : option string;
  p_conferenceStatusCallbackEvent : option (list string)
}.

(** A conference participant as [participants.list] returns it. *)
Record participant : Type := Participant {
  participant_label : option string;
  participant_callSid : string
}.

(** The answer to the accept request: [resp.ok], [resp.status],
    [resp.statusText], and what [resp.text()] settles to. *)
Record fetch_response : Type := FetchResponse {
  resp_ok : bool;
  resp_status : nat;
  resp_statusText : string;
  resp_text : exn + string
}.

(** The webhook event is read through [?.] and into variables annotated
    [string] and [string | undefined]; the records below follow those
    annotations, with [None] for what is [undefined] (or, for a name or a
    value, not a string).

    A SIP header of the incoming-call event. *)
Record sip_header : Type := SipHeader {
  header_name : option string;
  header_value : option string
}.

(** [event.data] of the webhook event.  [call_id] is used as a table key,
    in a template and under [encodeURIComponent], that is always through its
    string.  [sip_headers] is [None] when it is not an array; an element is
    [None] when it is [null]. *)
Record call_data : Type := CallData {
  call_id : option string;
  sip_headers : option (list (option sip_header))
}.

(** The unwrapped webhook event. *)
Record webhook_event : Type := WebhookEvent {
  event_type : option string;
  event_data : option call_data
}.

(** The HTTP response as the handler builds it: [res.status], [res.type],
    [res.set] and the body given to [res.send] ([None] for [sendStatus],
    where the framework supplies the text). *)
Record response : Type := Response {
  res_status : nat;
  res_type : option string;
  res_headers : list (string * string);
  res_body : option string
}.

Definition res : response := Response 200 None [] None.
Definition status (code : nat) (r : response) : response :=
  Response code (res_type r) (res_headers r) (res_body r).
Definition type (t : string) (r : response) : response :=
  Response (res_status r) (Some t) (res_headers r) (res_body r).
Definition set (name value : string) (r : response) : response :=
  Response (res_status r) (res_type r) (res_headers r ++ [(name, value)]) (res_body r).

(** The three correlation tables. *)
Inductive mapping : Type :=
| callIDtoConferenceName
| ConferenceNametoCallerID
| ConferenceNametoCallToken.

(** [console.log] and [console.error]. *)
Inductive level : Type := log | error.

(** An argument of [console.log] or [console.error]. *)
Inductive log_arg : Type :=
| LString (s : string)
| LNumber (n : nat)
| LError (e : exn).

(** The body and headers of the accept request. *)
Record fetch_init : Type := FetchInit {
  init_method : string;
  init_headers : list (string * string);
  init_body : json
}.

(** Everything the server does that the outside can see, in order. *)
Inductive event : Type :=
| store_write (m : mapping) (key : string) (value : option string)
| participants_create (conference : string) (p : participant_params)
| participants_list (conference : option string) (limit : nat)
| calls_update (callSid : string) (new_status : string)
| fetch (url : string) (init : fetch_init)
| http_response (r : response)
| console (l : level) (args : list log_arg)
| setTimeout (uri : string) (delay : nat)
| WebSocket_new (uri : string) (headers : list (string * string))
| ws_send (uri : string) (message : json)
| unhandledRejection (e : exn).

(** An async function parked at an [await] on a provider, with the local
    variables it still needs. *)
Inductive activation : Type :=
| createParticipant_awaits_create
| findVirtualAgentandDisconnect_awaits_list
| findVirtualAgentandDisconnect_awaits_update (remaining : list participant)
| addHuman_awaits_create
| post_root_awaits_unwrap
| post_root_awaits_fetch (callId : string).

(** What the event loop delivers to a parked activation. *)
Inductive answer : Type :=
| unwrapped (r : exn + webhook_event)
| fetched (r : exn + fetch_response)
| created (r : exn + unit)
| listed (r : exn + list participant)
| updated (r : exn + unit).

(** ** Process state *)

Record state : Type := State {
  callIDtoConferenceNameMapping : gmap string (option string);
  ConferenceNametoCallerIDMapping : gmap string (option string);
  ConferenceNametoCallTokenMapping : gmap string (option string);
  timers : list (string * nat);
  sockets : list string;
  parked : list activation
}.

Definition initial : state := State ∅ ∅ ∅ [] [] [].

Definition table (m : mapping) (s : state) : gmap string (option string) :=
  match m with
  | callIDtoConferenceName => callIDtoConferenceNameMapping s
  | ConferenceNametoCallerID => ConferenceNametoCallerIDMapping s
  | ConferenceNametoCallToken => ConferenceNametoCallTokenMapping s
  end.

(** [table[key]]: [undefined] for a missing key and for a key holding
    [undefined]. *)
Definition read (m : mapping) (key : string) (s : state) : option string :=
  match table m s !! key with
  | Some v => v
  | None => None
  end.

Definition write (m : mapping) (key : string) (v : option string) (s : state) : state :=
  match m with
  | callIDtoConferenceName =>
      State (<[key := v]> (callIDtoConferenceNameMapping s))
            (ConferenceNametoCallerIDMapping s) (ConferenceNametoCallTokenMapping s)
            (timers s) (sockets s) (parked s)
  | ConferenceNametoCallerID =>
      State (callIDtoConferenceNameMapping s)
            (<[key := v]> (ConferenceNametoCallerIDMapping s))
            (ConferenceNametoCallTokenMapping s)
            (timers s) (sockets s) (parked s)
  | ConferenceNametoCallToken =>
      State (callIDtoConferenceNameMapping s) (ConferenceNametoCallerIDMapping s)
            (<[key := v]> (ConferenceNametoCallTokenMapping s))
            (timers s) (sockets s) (parked s)
  end.

Definition with_timers (f : list (string * nat) -> list (string * nat)) (s : state) : state :=
  State (callIDtoConferenceNameMapping s) (ConferenceNametoCallerIDMapping s)
        (ConferenceNametoCallTokenMapping s) (f (timers s)) (sockets s) (parked s).

Definition with_sockets (f : list string -> list string) (s : state) : state :=
  State (callIDtoConferenceNameMapping s) (ConferenceNametoCallerIDMapping s)
        (ConferenceNametoCallTokenMapping s) (timers s) (f (sockets s)) (parked s).

Definition with_parked (f : list activation -> list activation) (s : state) : state :=
  State (callIDtoConferenceNameMapping s) (ConferenceNametoCallerIDMapping s)
        (ConferenceNametoCallTokenMapping s) (timers s) (sockets s) (f (parked s)).

(** ** The monad of a synchronous run

    A run reads and updates the process state, emits events and either
    completes or throws. *)

Inductive completion (A : Type) : Type :=
| Normal (a : A)
| Thrown (e : exn).
Arguments Normal {A} a.
Arguments Thrown {A} e.

Definition M (A : Type) : Type := state -> completion A * state * list event.

Definition ret {A} (a : A) : M A := fun s => (Normal a, s, []).

Definition bind {A B} (m : M A) (k : A -> M B) : M B :=
  fun s =>
    match m s with
    | (Normal a, s1, out1) =>
        match k a s1 with
        | (c, s2, out2) => (c, s2, out1 ++ out2)
        end
    | (Thrown e, s1, out1) => (Thrown e, s1, out1)
    end.

Definition throw {A} (e : exn) : M A := fun s => (Thrown e, s, []).

(** [try { m } catch (e) { h e }]. *)
Definition try_catch {A} (m : M A) (h : exn -> M A) : M A :=
  fun s =>
    match m s with
    | (Normal a, s1, out1) => (Normal a, s1, out1)
    | (Thrown e, s1, out1) =>
        match h e s1 with
        | (c, s2, out2) => (c, s2, out1 ++ out2)
        end
    end.

Definition emit (e : event) : M unit := fun s => (Normal tt, s, [e]).
Definition update (f : state -> state) : M unit := fun s => (Normal tt, f s, []).
Definition inspect {A} (f : state -> A) : M A := fun s => (Normal (f s), s, []).

Declare Scope flow_scope.
Delimit Scope flow_scope with flow.
Notation "x <- m ;; k" := (bind m (fun x => k))
  (at level 100, m at next level, k at level 200, right associativity) : flow_scope.
Notation "m ;; k" := (bind m (fun _ => k))
  (at level 100, k at level 200, right associativity) : flow_scope.
Open Scope flow_scope.

(** The value an [await] produces from a settled promise. *)
Definition settled {A} (r : exn + A) : M A :=
  match r with
  | inl e => throw e
  | inr a => ret a
  end.

(** The state and the events of a run. *)
Definition exec {A} (m : M A) (s : state) : state * list event :=
  match m s with
  | (_, s', out) => (s', out)
  end.

(** [table[key] = value] and [table[key]]. *)
Definition assign (m : mapping) (key : string) (value : option string) : M unit :=
  update (write m key value) ;; emit (store_write m key value).

Definition entry (m : mapping) (key : string) : M (option string) :=
  inspect (read m key).

(** The activation stops at an [await]; the event loop resumes it. *)
Definition park (a : activation) : M unit :=
  update (with_parked (fun l => l ++ [a])).

(** A call of an async function whose promise nobody holds: what it throws
    before or after an [await] rejects that promise. *)
Definition floating (body : M unit) : M unit :=
  try_catch body (fun e => emit (unhandledRejection e)).

(** ** Constants of the server *)

Definition RealtimeIncomingCall : string := "realtime.call.incoming".

Definition WELCOME_GREETING : string := "Hello, I'm an AI agent. How can I help you?".
Definition SYSTEM_PROMPT : string :=
  "You are a support agent. Speak in English unless the user requests a different language. If the caller asks to speak to a real person, use the addHumanAgent function.".
Definition MODEL : string := "gpt-realtime-2025-08-28".
Definition VOICE : string := "alloy".

Definition responseCreate : json :=
  JObject [("type", JString "response.create");
           ("response",
            JObject [("instructions", JString ("Say to the user: " +:+ WELCOME_GREETING))])].

Definition callAccept : json :=
  JObject [("instructions", JString SYSTEM_PROMPT);
           ("model", JString MODEL);
           ("voice", JString VOICE);
           ("tools",
            JArray [JObject [("type", JString "function");
                             ("name", JString "addHumanAgent");
                             ("description",
                              JString "Adds a human agent to the call with the user.");
                             ("parameters",
                              JObject [("type", JString "object");
                                       ("properties", JObject []);
                                       ("required", JArray [])])]])].

Definition keepChatting : json :=
  JObject [("type", JString "conversation.item.create");
           ("item",
            JObject [("type", JString "message");
                     ("role", JString "user");
                     ("content",
                      JArray [JObject [("type", JString "input_text");
                                       ("text",
                                        JString "While we wait for the human agent, keep chatting with the user or ask if theres anything you can help with while they wait.")]])])].

Definition responseCreateEmpty : json :=
  JObject [("type", JString "response.create")].

(** The test of the [catch] block of the webhook handler. *)
Definition is_invalid_signature (e : exn) : bool :=
  bool_decide (exn_name e = Some "InvalidWebhookSignatureError") ||
  includes (toLowerCase (default "" (exn_message e))) "invalid signature".

(** [sipHeaders.find(header => header.name === "X-conferenceName")]; reading
    [name] of a [null] element is a TypeError. *)
Fixpoint find_conference_header (sipHeaders : list (option sip_header))
  : completion (option sip_header) :=
  match sipHeaders with
  | [] => Normal None
  | None :: _ => Thrown (TypeError "Cannot read properties of null (reading 'name')")
  | Some header :: rest =>
      if bool_decide (header_name header = Some "X-conferenceName")
      then Normal (Some header)
      else find_conference_header rest
  end.

(** Lines 154 to 161: [foundConferenceName] stays [undefined] unless
    [sipHeaders] is an array with such a header; then it is
    [conferenceHeader?.value]. *)
Definition scan_sip_headers (sipHeaders : option (list (option sip_header)))
  : completion (option string) :=
  match sipHeaders with
  | Some sipHeaders =>
      match find_conference_header sipHeaders with
      | Normal conferenceHeader => Normal (conferenceHeader ≫= header_value)
      | Thrown e => Thrown e
      end
  | None => Normal None
  end.

Definition lift {A} (c : completion A) : M A :=
  match c with
  | Normal a => ret a
  | Thrown e => throw e
  end.

(** [res.send(body)] and [res.sendStatus(code)]. *)
Definition send (body : string) (r : response) : M unit :=
  emit (http_response (Response (res_status r) (res_type r) (res_headers r) (Some body))).

Definition sendStatus (code : nat) (r : response) : M unit :=
  emit (http_response (Response code (res_type r) (res_headers r) None)).

(** ** A sample deployment

    Settings, a platform and the data of one call, used to run the model. *)

Module Sample.

Definition DOMAIN : string := "warm-transfer.example.com".
Definition OPENAI_API_KEY : string := "sk-proj-sample".
Definition OPENAI_PROJECT_ID : string := "proj_sample".
Definition HUMAN_AGENT_NUMBER : string := "+15551112222".

(** The text of a hand-off request on the realtime socket. *)
Definition q (s : string) : string := dq +:+ s +:+ dq.

Definition handoff_text : string :=
  "{" +:+ q "type" +:+ ":" +:+ q "response.done" +:+ "," +:+
  q "response" +:+ ":{" +:+ q "output" +:+ ":[{" +:+
  q "type" +:+ ":" +:+ q "function_call" +:+ "," +:+
  q "name" +:+ ":" +:+ q "addHumanAgent" +:+ "," +:+
  q "call_id" +:+ ":" +:+ q "fc1" +:+ "}]}}".

Definition handoff_json : json :=
  JObject [("type", JString "response.done");
           ("response",
            JObject [("output",
                      JArray [JObject [("type", JString "function_call");
                                       ("name", JString "addHumanAgent");
                                       ("call_id", JString "fc1")]])])].

(** A parser that knows this one text and rejects every other. *)
Definition JSON_parse (text : string) : exn + json :=
  if String.eqb text handoff_text then inr handoff_json
  else inl (Exn (Some "SyntaxError") (Some "Unexpected token")).

(** Addresses of the realtime endpoint, kept as their query string. *)
Definition URL : Type := string.

Definition URL_new (uri : string) : exn + URL :=
  if String.prefix "wss://api.openai.com/v1/realtime?" uri
  then inr (substring 33 (String.length uri) uri)
  else inl (TypeError "Invalid URL").

Definition searchParams_get (url : URL) (name : string) : option string :=
  snd <$> head (filter (fun p => bool_decide (fst p = name)) (URLSearchParams url)).

(** The inbound call and the callbacks of the scenario. *)
Definition inbound : string := "CallSid=CA123&From=%2B15551230000&CallToken=TOK1".
Definition human_joined : string :=
  "ParticipantLabel=human+agent&StatusCallbackEvent=participant-join&ConferenceSid=CA123".
Definition customer_joined : string :=
  "ParticipantLabel=customer&StatusCallbackEvent=participant-join&ConferenceSid=CA123".

Definition customer : participant := Participant (Some "customer") "CA123".
Definition virtual_agent : participant := Participant (Some "virtual agent") "CA456".

Definition incoming : webhook_event :=
  WebhookEvent (Some RealtimeIncomingCall)
    (Some (CallData (Some "RTC1")
             (Some [Some (SipHeader (Some "X-conferenceName") (Some "CA123"))]))).


Definition accepted : fetch_response := FetchResponse true 200 "OK" (inr "").


Definition uri : string := "wss://api.openai.com/v1/realtime?call_id=RTC1".

(** The process after the AI leg of call [RTC1] was accepted and its
    socket opened, and the trace up to there. *)
Definition session : state :=
  State (<["RTC1" := Some "CA123"]> ∅) ∅ ∅ [] [uri] [].

Definition session_trace : list event :=
  [store_write callIDtoConferenceName "RTC1" (Some "CA123");
   fetch "https://api.openai.com/v1/realtime/calls/RTC1/accept"
     (FetchInit "POST"
        [("Authorization", "Bearer sk-proj-sample");
         ("Content-Type", "application/json");
         ("OpenAI-Beta", "realtime=v1")]
        callAccept);
   setTimeout uri 0;
   http_response (Response 200 None [("Authorization", "Bearer sk-proj-sample")] None);
   WebSocket_new uri
     [("Authorization", "Bearer sk-proj-sample");
      ("OpenAI-Beta", "realtime=v1");
      ("origin", "https://api.openai.com")]].


(** The whole of one call: intake, accept webhook, session, hand-off and
    the join of the human agent, with every provider request answered with
    success.  [twiml] is the document returned for the inbound call. *)
Definition call_end : state :=
  State (<["RTC1" := Some "CA123"]> ∅)
        (<["CA123" := Some "+15551230000"]> ∅)
        (<["CA123" := Some "TOK1"]> ∅) [] [uri] [].

Definition call_trace (twiml : string) : list event :=
  [store_write ConferenceNametoCallerID "CA123" (Some "+15551230000");
   store_write ConferenceNametoCallToken "CA123" (Some "TOK1");
   participants_create "CA123"
     {| p_from := Some "+15551230000";
        p_label := "virtual agent";
        p_to := "sip:proj_sample@sip.api.openai.com;transport=tls?X-conferenceName=CA123";
        p_earlyMedia := false;
        p_callToken := Some "TOK1";
        p_conferenceStatusCallback :=
          Some "https://warm-transfer.example.com/conference-events";
        p_conferenceStatusCallbackEvent := Some ["join"] |};
   http_response (Response 200 (Some "text/xml") [] (Some twiml))] ++
  session_trace ++
  [console log [LString "Adding human to conference:"; LString "CA123"];
   participants_create "CA123"
     {| p_from := Some "+15551230000";
        p_label := "human agent";
        p_to := "+15551112222";
        p_earlyMedia := false;
        p_callToken := Some "TOK1";
        p_conferenceStatusCallback := None;
        p_conferenceStatusCallbackEvent := None |};
   ws_send uri keepChatting;
   ws_send uri responseCreateEmpty;
   participants_list (Some "CA123") 20;
   calls_update "CA456" "completed";
   console log [LString "Virtual agent call ended."]].

(** Webhook events with other SIP headers. *)
Definition crowded : webhook_event :=
  WebhookEvent (Some RealtimeIncomingCall)
    (Some (CallData (Some "RTC1")
             (Some [Some (SipHeader (Some "Via") (Some "SIP/2.0/TLS"));
                    Some (SipHeader (Some "X-conferenceName") (Some "CA123"));
                    None;
                    Some (SipHeader (Some "X-conferenceName") (Some "CA999"))]))).

Definition null_first : webhook_event :=
  WebhookEvent (Some RealtimeIncomingCall)
    (Some (CallData (Some "RTC1")
             (Some [None; Some (SipHeader (Some "X-conferenceName") (Some "CA123"))]))).

Definition no_headers : webhook_event :=
  WebhookEvent (Some RealtimeIncomingCall) (Some (CallData (Some "RTC1") None)).

Definition network_down : exn := Exn (Some "TypeError") (Some "fetch failed").

Definition second_virtual_agent : participant :=
  Participant (Some "virtual agent") "CA789".

End Sample.

(** ** Character sets, for statements about encoded text *)


(** What [encodeURIComponent] can produce: the characters it leaves alone,
    the percent sign and the upper-case hexadecimal digits. *)
Definition uri_component_char (c : ascii) : bool :=
  uri_unreserved c || Ascii.eqb c "%" ||
  (let n := N_of_ascii c in ((48 <=? n) && (n <=? 57)) || ((65 <=? n) && (n <=? 70)))%N.

Fixpoint all_chars (p : ascii -> bool) (s : string) : bool :=
  match s with
  | EmptyString => true
  | String d r => p d && all_chars p r
  end.

(** The tables can be told apart. *)
#[global] Instance mapping_eq_dec : EqDecision mapping.
Proof. solve_decision. Defined.

Section Server.

(** The settings read from the environment; the start-up check leaves the
    process only when all of them are non-empty. *)
Variable DOMAIN : string.
Variable OPENAI_API_KEY : string.
Variable OPENAI_PROJECT_ID : string.
Variable HUMAN_AGENT_NUMBER : string.

(** Library functions of the platform: [JSON.parse], [new URL] and
    [searchParams.get].  The first two throw on malformed input. *)
Variable JSON_parse : string -> exn + json.
Variable URL : Type.
Variable URL_new : string -> exn + URL.
Variable searchParams_get : URL -> string -> option string.

(** *** [POST /incoming-call] *)

Definition twimlResponse (conferenceName : string) : string :=
  "<?xml version=" +:+ dq +:+ "1.0" +:+ dq +:+ " encoding=" +:+ dq +:+ "UTF-8" +:+ dq +:+ "?>" +:+ nl +:+
  spaces 24 +:+ "<Response>" +:+ nl +:+
  spaces 28 +:+ "<Dial>" +:+ nl +:+
  spaces 32 +:+ "<Conference " +:+ nl +:+
  spaces 36 +:+ "startConferenceOnEnter=" +:+ dq +:+ "true" +:+ dq +:+ nl +:+
  spaces 36 +:+ "participantLabel=" +:+ dq +:+ "customer" +:+ dq +:+ nl +:+
  spaces 36 +:+ "endConferenceOnExit=" +:+ dq +:+ "true" +:+ dq +:+ nl +:+
  spaces 36 +:+ "statusCallback=" +:+ dq +:+ "https://" +:+ DOMAIN +:+ "/conference-events" +:+ dq +:+ nl +:+
  spaces 36 +:+ "statusCallbackEvent=" +:+ dq +:+ "join" +:+ dq +:+ nl +:+
  spaces 32 +:+ ">" +:+ nl +:+
  spaces 36 +:+ conferenceName +:+ nl +:+
  spaces 32 +:+ "</Conference>" +:+ nl +:+
  spaces 28 +:+ "</Dial>" +:+ nl +:+
  spaces 24 +:+ "</Response>".

(** The async function runs up to its [await]: the request is out and the
    activation is parked. *)
Definition createParticipant (parsedBody : gmap string string) (conferenceName : string)
  : M unit :=
  emit (participants_create conferenceName
          {| p_from := parsedBody !! "From";
             p_label := "virtual agent";
             p_to := "sip:" +:+ OPENAI_PROJECT_ID +:+
                     "@sip.api.openai.com;transport=tls?X-conferenceName=" +:+
                     conferenceName;
             p_earlyMedia := false;
             p_callToken := parsedBody !! "CallToken";
             p_conferenceStatusCallback :=
               Some ("https://" +:+ DOMAIN +:+ "/conference-events");
             p_conferenceStatusCallbackEvent := Some ["join"] |}) ;;
  park createParticipant_awaits_create.

(** After the [await]: the function has nothing left to do. *)
Definition createParticipant_resumed (r : exn + unit) : M unit :=
  _ <- settled r ;; ret tt.

Definition post_incoming_call (rawBody : string) : M unit :=
  let parsedBody := Object_fromEntries (URLSearchParams rawBody) in
  let conferenceName := template (parsedBody !! "CallSid") in
  assign ConferenceNametoCallerID conferenceName (parsedBody !! "From") ;;
  assign ConferenceNametoCallToken conferenceName (parsedBody !! "CallToken") ;;
  floating (createParticipant parsedBody conferenceName) ;;
  send (twimlResponse conferenceName) (type "text/xml" res).

(** *** [POST /conference-events] *)

(** The [for] loop over the listed participants, up to its next [await]. *)
Fixpoint disconnect_virtual_agents (participants : list participant) : M unit :=
  match participants with
  | [] => ret tt
  | participant :: remaining =>
      if bool_decide (participant_label participant = Some "virtual agent")
      then
        emit (calls_update (participant_callSid participant) "completed") ;;
        park (findVirtualAgentandDisconnect_awaits_update remaining)
      else disconnect_virtual_agents remaining
  end.

Definition findVirtualAgentandDisconnect (parsedBody : gmap string string) : M unit :=
  emit (participants_list (parsedBody !! "ConferenceSid") 20) ;;
  park findVirtualAgentandDisconnect_awaits_list.

Definition findVirtualAgentandDisconnect_listed (r : exn + list participant) : M unit :=
  participants <- settled r ;;
  disconnect_virtual_agents participants.

Definition findVirtualAgentandDisconnect_updated
    (remaining : list participant) (r : exn + unit) : M unit :=
  _ <- settled r ;;
  emit (console log [LString "Virtual agent call ended."]) ;;
  disconnect_virtual_agents remaining.

Definition post_conference_events (rawBody : string) : M unit :=
  let parsedBody := Object_fromEntries (URLSearchParams rawBody) in
  if bool_decide (parsedBody !! "ParticipantLabel" = Some "human agent") &&
     bool_decide (parsedBody !! "StatusCallbackEvent" = Some "participant-join")
  then floating (findVirtualAgentandDisconnect parsedBody)
  else ret tt.

(** *** [GET /health] *)

Definition get_health : M unit := send "Health ok" (status 200 res).

(** *** [POST /] *)

Definition wssUrl (callId : string) : string :=
  "wss://api.openai.com/v1/realtime?call_id=" +:+ callId.

Definition acceptUrl (callId : string) : string :=
  "https://api.openai.com/v1/realtime/calls/" +:+ encodeURIComponent callId +:+ "/accept".

Definition acceptInit : fetch_init :=
  {| init_method := "POST";
     init_headers := [("Authorization", "Bearer " +:+ OPENAI_API_KEY);
                      ("Content-Type", "application/json");
                      ("OpenAI-Beta", "realtime=v1")];
     init_body := callAccept |}.

(** [setTimeout] registers the callback; it does not run it. *)
Definition connectWithDelay (sipWssUrl : string) (delay : nat) : M unit :=
  try_catch
    (update (with_timers (fun l => l ++ [(sipWssUrl, delay)])) ;;
     emit (setTimeout sipWssUrl delay))
    (fun e => emit (console error [LString "Error connecting web socket "; LError e])).

Definition post_root_catch (e : exn) : M unit :=
  if is_invalid_signature e
  then send "Invalid signature" (status 400 res)
  else send "Server error" (status 500 res).

(** The handler up to [await openAiClient.webhooks.unwrap(...)]; the
    verdict of the library on body, headers and [WEBHOOK_SECRET] is the
    answer the activation is resumed with. *)
Definition post_root (rawBody : string) (headers : list (string * string)) : M unit :=
  park post_root_awaits_unwrap.

(** From the verdict to [await fetch(...)]. *)
Definition post_root_unwrapped (r : exn + webhook_event) : M unit :=
  try_catch
    (event <- settled r ;;
     if bool_decide (event_type event = Some RealtimeIncomingCall) then
       let callId := template (event_data event ≫= call_id) in
       let sipHeaders := event_data event ≫= sip_headers in
       foundConferenceName <- lift (scan_sip_headers sipHeaders) ;;
       assign callIDtoConferenceName callId foundConferenceName ;;
       emit (fetch (acceptUrl callId) acceptInit) ;;
       park (post_root_awaits_fetch callId)
     else sendStatus 200 res)
    post_root_catch.

(** From the answer of the accept request to the end. *)
Definition post_root_fetched (callId : string) (r : exn + fetch_response) : M unit :=
  try_catch
    (resp <- settled r ;;
     if negb (resp_ok resp) then
       let text := match resp_text resp with inr t => t | inl _ => "" end in
       emit (console error [LString "ACCEPT failed:"; LNumber (resp_status resp);
                            LString (resp_statusText resp); LString text]) ;;
       send "Accept failed" (status 500 res)
     else
       connectWithDelay (wssUrl callId) 0 ;;
       sendStatus 200 (set "Authorization" ("Bearer " +:+ OPENAI_API_KEY) res))
    post_root_catch.

(** *** The realtime session *)

(** [new WebSocket(uri, ...)] parses its address and throws when that
    fails; otherwise the four listeners are attached. *)
Definition websocketTask (uri : string) : M unit :=
  match URL_new uri with
  | inl _ => throw (Exn (Some "SyntaxError") (Some ("Invalid URL: " +:+ uri)))
  | inr _ =>
      emit (WebSocket_new uri [("Authorization", "Bearer " +:+ OPENAI_API_KEY);
                               ("OpenAI-Beta", "realtime=v1");
                               ("origin", "https://api.openai.com")]) ;;
      update (with_sockets (fun l => l ++ [uri]))
  end.

Definition on_open (uri : string) : M unit :=
  emit (console log [LString ("WS OPEN " +:+ uri)]) ;;
  emit (ws_send uri responseCreate).

Definition addHuman (openAiCallId : string) : M unit :=
  conferenceName <- entry callIDtoConferenceName openAiCallId ;;
  match conferenceName with
  | None | Some EmptyString =>
      emit (console error [LString "Conference name is undefined for call ID:";
                           LString openAiCallId])
  | Some conferenceName =>
      emit (console log [LString "Adding human to conference:"; LString conferenceName]) ;;
      callToken <- entry ConferenceNametoCallToken conferenceName ;;
      callerID <- entry ConferenceNametoCallerID conferenceName ;;
      from <- match callerID with
              | Some v => ret v
              | None => throw (Error "CallerID is not defined")
              end ;;
      token <- match callToken with
               | Some v => ret v
               | None => throw (Error "CallToken is not defined")
               end ;;
      emit (participants_create conferenceName
              {| p_from := Some from;
                 p_label := "human agent";
                 p_to := HUMAN_AGENT_NUMBER;
                 p_earlyMedia := false;
                 p_callToken := Some token;
                 p_conferenceStatusCallback := None;
                 p_conferenceStatusCallbackEvent := None |}) ;;
      park addHuman_awaits_create
  end.

Definition addHuman_resumed (r : exn + unit) : M unit :=
  _ <- settled r ;; ret tt.

Definition handleFunctionCall (output : json) (uri : string) : M unit :=
  if is_string (optional output "type") "function_call" &&
     is_string (optional output "name") "addHumanAgent" &&
     truthy (optional output "call_id")
  then
    url <- settled (URL_new uri) ;;
    let extractedCallId := searchParams_get url "call_id" in
    match extractedCallId with
    | Some (String c r) => floating (addHuman (String c r))
    | Some EmptyString | None =>
        emit (console error [LString "Call ID is null, cannot add human agent."])
    end ;;
    emit (ws_send uri keepChatting) ;;
    emit (ws_send uri responseCreateEmpty)
  else ret tt.

(** [response.response?.output?.[0]]. *)
Definition first_output (response : json) : json :=
  optional (optional (property response "response") "output") "0".

Definition on_message (uri : string) (data : string) : M unit :=
  let text := data in
  try_catch
    (response <- settled (JSON_parse text) ;;
     type_ <- (if nullish response
               then throw (TypeError "Cannot read properties of null (reading 'type')")
               else ret (property response "type")) ;;
     if is_string type_ "response.done" then
       let output := first_output response in
       if truthy output then handleFunctionCall output uri else ret tt
     else ret tt)
    (fun err =>
       emit (console error [LString "Error processing OpenAI message:"; LError err;
                            LString "Raw message:"; LString data])).

Definition on_error (uri : string) (e : exn) : M unit :=
  emit (console error [LString "WebSocket error:"; LError e]).

Definition on_close (uri : string) (code : nat) (reason : string) : M unit :=
  emit (console log [LString "WebSocket closed:"; LNumber code; LString reason]).

(** *** The event loop *)

(** The code that runs when the answer to an [await] arrives.  The
    promises of all these activations are held by nobody. *)
Definition resume (a : activation) (ans : answer) : option (M unit) :=
  match a, ans with
  | createParticipant_awaits_create, created r =>
      Some (floating (createParticipant_resumed r))
  | findVirtualAgentandDisconnect_awaits_list, listed r =>
      Some (floating (findVirtualAgentandDisconnect_listed r))
  | findVirtualAgentandDisconnect_awaits_update remaining, updated r =>
      Some (floating (findVirtualAgentandDisconnect_updated remaining r))
  | addHuman_awaits_create, created r =>
      Some (floating (addHuman_resumed r))
  | post_root_awaits_unwrap, unwrapped r =>
      Some (floating (post_root_unwrapped r))
  | post_root_awaits_fetch callId, fetched r =>
      Some (floating (post_root_fetched callId r))
  | _, _ => None
  end.

(** One turn of the event loop: a request arrives, an awaited answer
    arrives, a timer fires, or a socket raises one of its events.  The
    label is what the turn emits. *)
Inductive turn : state -> list event -> state -> Prop :=
| turn_incoming_call s rawBody :
    turn s (snd (exec (post_incoming_call rawBody) s))
           (fst (exec (post_incoming_call rawBody) s))
| turn_conference_events s rawBody :
    turn s (snd (exec (post_conference_events rawBody) s))
           (fst (exec (post_conference_events rawBody) s))
| turn_health s :
    turn s (snd (exec get_health s)) (fst (exec get_health s))
| turn_root s rawBody headers :
    turn s (snd (exec (floating (post_root rawBody headers)) s))
           (fst (exec (floating (post_root rawBody headers)) s))
| turn_answer s i a ans m :
    parked s !! i = Some a ->
    resume a ans = Some m ->
    turn s (snd (exec m (with_parked (delete i) s)))
           (fst (exec m (with_parked (delete i) s)))
| turn_timer s i uri delay :
    timers s !! i = Some (uri, delay) ->
    turn s (snd (exec (floating (websocketTask uri)) (with_timers (delete i) s)))
           (fst (exec (floating (websocketTask uri)) (with_timers (delete i) s)))
| turn_open s uri :
    uri ∈ sockets s ->
    turn s (snd (exec (on_open uri) s)) (fst (exec (on_open uri) s))
| turn_message s uri data :
    uri ∈ sockets s ->
    turn s (snd (exec (on_message uri data) s)) (fst (exec (on_message uri data) s))
| turn_error s uri e :
    uri ∈ sockets s ->
    turn s (snd (exec (on_error uri e) s)) (fst (exec (on_error uri e) s))
| turn_close s i uri code reason :
    sockets s !! i = Some uri ->
    turn s (snd (exec (on_close uri code reason) (with_sockets (delete i) s)))
           (fst (exec (on_close uri code reason) (with_sockets (delete i) s))).

(** The states the process can be in, with the trace that led there. *)
Inductive reachable : list event -> state -> Prop :=
| reachable_initial : reachable [] initial
| reachable_turn tr s out s' :
    reachable tr s -> turn s out s' -> reachable (tr ++ out) s'.

(** *** A handler run on its own

    [handle m answers s] runs the handler [m] and then delivers the
    answers, in order, each to the activation this run parked last, as
    happens when no other turn comes in between.  Activations that were
    parked before the run are left alone. *)

Fixpoint settle (floor : nat) (answers : list answer) (s : state) : state * list event :=
  match answers with
  | [] => (s, [])
  | ans :: rest =>
      if (length (parked s) <=? floor)%nat then (s, [])
      else
        match last (parked s) with
        | Some a =>
            match resume a ans with
            | Some m =>
                let '(s1, out1) := exec m (with_parked (fun l => removelast l) s) in
                let '(s2, out2) := settle floor rest s1 in
                (s2, out1 ++ out2)
            | None => (s, [])
            end
        | None => (s, [])
        end
  end.

Definition handle (m : M unit) (answers : list answer) (s : state) : state * list event :=
  let '(s1, out1) := exec m s in
  let '(s2, out2) := settle (length (parked s)) answers s1 in
  (s2, out1 ++ out2).

(** *** Reading a trace *)

Definition responses (out : list event) : list response :=
  omap (fun e => match e with http_response r => Some r | _ => None end) out.

(** The call-termination requests: the calls whose status is set. *)
Definition terminations (out : list event) : list (string * string) :=
  omap (fun e => match e with calls_update sid st => Some (sid, st) | _ => None end) out.

(** The requests to the telephony provider. *)
Definition is_provider_request (e : event) : bool :=
  match e with
  | participants_create _ _ | participants_list _ _ | calls_update _ _ => true
  | _ => false
  end.

Definition is_console (e : event) : bool :=
  match e with
  | console _ _ => true
  | _ => false
  end.

Definition is_create (e : event) : bool :=
  match e with
  | participants_create _ _ => true
  | _ => false
  end.

Definition is_virtual_agent (p : participant) : bool :=
  bool_decide (participant_label p = Some "virtual agent").

(** The first listed participant labelled as the virtual agent, and the
    participants after it. *)
Fixpoint next_virtual_agent (participants : list participant)
  : option (participant * list participant) :=
  match participants with
  | [] => None
  | p :: remaining =>
      if is_virtual_agent p then Some (p, remaining) else next_virtual_agent remaining
  end.




(** The two tests of the message listener, and the three of
    [handleFunctionCall] on top of them. *)
Definition response_done_with_item (response : json) : bool :=
  negb (nullish response) &&
  is_string (property response "type") "response.done" &&
  truthy (first_output response).

Definition handoff_trigger (response : json) : bool :=
  response_done_with_item response &&
  is_string (optional (first_output response) "type") "function_call" &&
  is_string (optional (first_output response) "name") "addHumanAgent" &&
  truthy (optional (first_output response) "call_id").

(** The activations of [findVirtualAgentandDisconnect]. *)
Definition watcher_activation (a : activation) : Prop :=
  match a with
  | findVirtualAgentandDisconnect_awaits_list
  | findVirtualAgentandDisconnect_awaits_update _ => True
  | _ => False
  end.

(** *** What the ordering claims speak about *)

(** The entry for [callId] is in the table, and the trace shows its
    write. *)
Definition recorded (tr : list event) (s : state) (callId : string) : Prop :=
  is_Some (callIDtoConferenceNameMapping s !! callId) /\
  exists v i, tr !! i = Some (store_write callIDtoConferenceName callId v).

(** [uri] is the realtime address of a call whose entry is recorded. *)
Definition session_ready (tr : list event) (s : state) (uri : string) : Prop :=
  exists callId, uri = wssUrl callId /\ recorded tr s callId.

(** The accept request, the scheduling of the realtime socket and its
    opening. *)
Definition is_session_event (e : event) : bool :=
  match e with
  | fetch _ _ | setTimeout _ _ | WebSocket_new _ _ => true
  | _ => false
  end.

(** Such an event at position [j] of the trace comes after the write of
    the entry of its call. *)
Definition after_its_write (tr : list event) (j : nat) (e : event) : Prop :=
  exists callId v i,
    i < j /\
    tr !! i = Some (store_write callIDtoConferenceName callId v) /\
    (e = fetch (acceptUrl callId) acceptInit \/
     e = setTimeout (wssUrl callId) 0 \/
     exists headers, e = WebSocket_new (wssUrl callId) headers).

Definition invariant (tr : list event) (s : state) : Prop :=
  (forall uri delay, (uri, delay) ∈ timers s -> session_ready tr s uri) /\
  (forall uri, uri ∈ sockets s ->
               session_ready tr s uri /\ exists url, URL_new uri = inr url) /\
  (forall callId, post_root_awaits_fetch callId ∈ parked s -> recorded tr s callId) /\
  (forall j e, tr !! j = Some e -> is_session_event e = true -> after_its_write tr j e).

(** [s0] is [s] with some timers, sockets or parked activations taken
    away. *)
Definition shrunk (s0 s : state) : Prop :=
  callIDtoConferenceNameMapping s0 = callIDtoConferenceNameMapping s /\
  timers s0 ⊆ timers s /\
  sockets s0 ⊆ sockets s /\
  parked s0 ⊆ parked s.

(** A run that leaves the call table, the timers and the sockets alone,
    parks no activation that waits for the accept answer, and neither
    sends the accept request nor opens a socket. *)
Definition quiet (m : M unit) : Prop :=
  forall s,
    callIDtoConferenceNameMapping (fst (exec m s)) = callIDtoConferenceNameMapping s /\
    timers (fst (exec m s)) = timers s /\
    sockets (fst (exec m s)) = sockets s /\
    (forall callId, post_root_awaits_fetch callId ∈ parked (fst (exec m s)) ->
                    post_root_awaits_fetch callId ∈ parked s) /\
    Forall (fun e => is_session_event e = false) (snd (exec m s)).

(** Closes the five parts of [quiet] once the run is an explicit triple. *)
Ltac quiet_run :=
  repeat split; cbn;
  try reflexivity;
  try (intros ? Hin; first
         [ exact Hin
         | apply elem_of_app in Hin as [Hin|Hin];
           [exact Hin | apply list_elem_of_singleton in Hin; discriminate] ]);
  try (repeat constructor).

(** Classifies the events of an explicit list as console lines, rejected
    promises or sends. *)
Ltac shape_events :=
  repeat first
    [ apply Forall_nil_2
    | apply Forall_cons_2;
      [ first [ left; reflexivity
              | right; left; by eexists
              | right; right; by eexists ] | ] ].

(** What the message listener of the socket [uri] may emit: console lines,
    the rejection of the promise of [addHuman], sends on its own socket, and
    the request for the human agent at the configured number. *)
Definition listener_event (uri : string) (e : event) : Prop :=
  match e with
  | console _ _ | unhandledRejection _ => True
  | ws_send u _ => u = uri
  | participants_create _ p =>
      p_label p = "human agent" /\ p_to p = HUMAN_AGENT_NUMBER
  | _ => False
  end.

(** *** Where the events of a run come from *)

(** What has to have happened before an event at position [j] of the
    trace: a timer is set for the address of a call whose accept request is
    out; a socket is opened on an address a timer was set for; a message is
    sent on a socket that was opened; a call is ended, with status
    [completed], after the participants of a conference were listed; a
    participant is requested with the caller number and the call token
    written for its conference, and the human agent only for a conference
    written as the conference of a realtime call. *)
Definition justified (tr : list event) (j : nat) (e : event) : Prop :=
  match e with
  | setTimeout uri delay =>
      delay = 0 /\
      exists callId i,
        i < j /\ uri = wssUrl callId /\
        tr !! i = Some (fetch (acceptUrl callId) acceptInit)
  | WebSocket_new uri _ =>
      exists i, i < j /\ tr !! i = Some (setTimeout uri 0)
  | ws_send uri _ =>
      exists i headers, i < j /\ tr !! i = Some (WebSocket_new uri headers)
  | calls_update _ new_status =>
      new_status = "completed" /\
      exists i conference, i < j /\ tr !! i = Some (participants_list conference 20)
  | participants_create conference p =>
      (exists i1 i2,
          i1 < j /\ i2 < j /\
          tr !! i1 = Some (store_write ConferenceNametoCallerID conference (p_from p)) /\
          tr !! i2 = Some (store_write ConferenceNametoCallToken conference (p_callToken p))) /\
      (p_label p = "virtual agent" \/
       (p_label p = "human agent" /\
        exists callId i3,
          i3 < j /\
          tr !! i3 = Some (store_write callIDtoConferenceName callId (Some conference))))
  | _ => True
  end.

(** The books of the process: what is in the tables was written, what was
    written is still there, the two tables keyed by conference name have
    the same keys, and every socket, timer and parked activation has its
    cause in the trace. *)
Definition ledger (tr : list event) (s : state) : Prop :=
  (forall m k v, table m s !! k = Some v -> exists i, tr !! i = Some (store_write m k v)) /\
  (forall m k v i, tr !! i = Some (store_write m k v) -> is_Some (table m s !! k)) /\
  dom (ConferenceNametoCallerIDMapping s) = dom (ConferenceNametoCallTokenMapping s) /\
  (forall uri, uri ∈ sockets s ->
               exists i headers, tr !! i = Some (WebSocket_new uri headers)) /\
  (forall uri delay, (uri, delay) ∈ timers s ->
                     delay = 0 /\ exists i, tr !! i = Some (setTimeout uri 0)) /\
  (forall callId, post_root_awaits_fetch callId ∈ parked s ->
                  exists i, tr !! i = Some (fetch (acceptUrl callId) acceptInit)) /\
  (forall a, a ∈ parked s -> watcher_activation a ->
             exists i conference, tr !! i = Some (participants_list conference 20)) /\
  (forall j e, tr !! j = Some e -> justified tr j e).

(** Reads a table of a state given by its writes. *)
Ltac tables :=
  cbn [table write with_parked with_timers with_sockets
       callIDtoConferenceNameMapping ConferenceNametoCallerIDMapping
       ConferenceNametoCallTokenMapping timers sockets parked].

(** No position of an explicit list of events holds a write. *)
Ltac no_writes :=
  let Hi := fresh "Hi" in
  intros ? ? ? [|[|[|[|[|?]]]]] Hi; cbn in Hi; simplify_eq.

(** *** Whom the process calls *)

(** The outbound requests of the source: the virtual agent at the SIP
    address of the project with the name of the conference in its header
    parameter, the human agent at the configured number, and the accept
    request of a realtime call. *)
Definition known_party (e : event) : Prop :=
  match e with
  | participants_create conference p =>
      (p_label p = "virtual agent" /\
       p_to p = "sip:" +:+ OPENAI_PROJECT_ID +:+
                "@sip.api.openai.com;transport=tls?X-conferenceName=" +:+ conference) \/
      (p_label p = "human agent" /\ p_to p = HUMAN_AGENT_NUMBER)
  | fetch url init => init = acceptInit /\ exists callId, url = acceptUrl callId
  | _ => True
  end.

(** ** Properties *)

(** *** Call intake *)

Lemma post_incoming_call_run (rawBody : string) (s : state) :
  let parsedBody := Object_fromEntries (URLSearchParams rawBody) in
  let conferenceName := template (parsedBody !! "CallSid") in
  post_incoming_call rawBody s =
  (Normal tt,
   with_parked (fun l => l ++ [createParticipant_awaits_create])
     (write ConferenceNametoCallToken conferenceName (parsedBody !! "CallToken")
        (write ConferenceNametoCallerID conferenceName (parsedBody !! "From") s)),
   [store_write ConferenceNametoCallerID conferenceName (parsedBody !! "From");
    store_write ConferenceNametoCallToken conferenceName (parsedBody !! "CallToken");
    participants_create conferenceName
      {| p_from := parsedBody !! "From";
         p_label := "virtual agent";
         p_to := "sip:" +:+ OPENAI_PROJECT_ID +:+
                 "@sip.api.openai.com;transport=tls?X-conferenceName=" +:+
                 conferenceName;
         p_earlyMedia := false;
         p_callToken := parsedBody !! "CallToken";
         p_conferenceStatusCallback :=
           Some ("https://" +:+ DOMAIN +:+ "/conference-events");
         p_conferenceStatusCallbackEvent := Some ["join"] |};
    http_response (Response 200 (Some "text/xml") [] (Some (twimlResponse conferenceName)))]).
Proof. reflexivity. Qed.

Lemma read_write_same (m : mapping) (key : string) (v : option string) (s : state) :
  read m key (write m key v s) = v.
Proof.
  unfold read; destruct m; simpl; by rewrite lookup_insert_eq.
Qed.


Lemma read_with_parked (m : mapping) (key : string) f (s : state) :
  read m key (with_parked f s) = read m key s.
Proof. by destruct m. Qed.


(** *** Delivering answers *)

Lemma settle_last (floor : nat) (ans : answer) (rest : list answer) (s : state)
    (older : list activation) (a : activation) (m : M unit) :
  parked s = older ++ [a] ->
  floor < length (older ++ [a]) ->
  resume a ans = Some m ->
  settle floor (ans :: rest) s =
  (fst (settle floor rest (fst (exec m (with_parked (fun _ => older) s)))),
   snd (exec m (with_parked (fun _ => older) s)) ++
   snd (settle floor rest (fst (exec m (with_parked (fun _ => older) s))))).
Proof.
  intros Hp Hlt Hres. simpl. rewrite Hp.
  destruct (Nat.leb_spec (length (older ++ [a])) floor) as [Hle|_]; [lia|].
  rewrite last_snoc, Hres.
  replace (with_parked (fun l => removelast l) s) with (with_parked (fun _ => older) s)
    by (unfold with_parked; rewrite Hp, removelast_last; reflexivity).
  destruct (exec m _) as [s1 out1]; simpl.
  by destruct (settle floor rest s1).
Qed.

Lemma settle_floor (floor : nat) (answers : list answer) (s : state) :
  length (parked s) <= floor -> settle floor answers s = (s, []).
Proof.
  intros Hle. destruct answers as [|ans rest]; [reflexivity|]. simpl.
  by destruct (Nat.leb_spec (length (parked s)) floor) as [_|Hlt]; [|lia].
Qed.

Lemma with_parked_restore (s : state) (a : activation) :
  with_parked (fun _ => parked s) (with_parked (fun l => l ++ [a]) s) = s.
Proof. by destruct s. Qed.

(** *** The conference watcher *)

Lemma disconnect_virtual_agents_run (participants : list participant) (s : state) :
  disconnect_virtual_agents participants s =
  match next_virtual_agent participants with
  | None => (Normal tt, s, [])
  | Some (p, remaining) =>
      (Normal tt,
       with_parked (fun l => l ++ [findVirtualAgentandDisconnect_awaits_update remaining]) s,
       [calls_update (participant_callSid p) "completed"])
  end.
Proof.
  induction participants as [|p remaining IH]; [reflexivity|].
  simpl. unfold is_virtual_agent. by case_bool_decide.
Qed.

Lemma findVirtualAgentandDisconnect_listed_run (r : exn + list participant) (s : state) :
  floating (findVirtualAgentandDisconnect_listed r) s =
  match r with
  | inl e => (Normal tt, s, [unhandledRejection e])
  | inr participants =>
      match next_virtual_agent participants with
      | None => (Normal tt, s, [])
      | Some (p, remaining) =>
          (Normal tt,
           with_parked
             (fun l => l ++ [findVirtualAgentandDisconnect_awaits_update remaining]) s,
           [calls_update (participant_callSid p) "completed"])
      end
  end.
Proof.
  destruct r as [e|participants]; [reflexivity|].
  unfold floating, try_catch, findVirtualAgentandDisconnect_listed, bind; simpl.
  rewrite disconnect_virtual_agents_run.
  by destruct (next_virtual_agent participants) as [[p remaining]|].
Qed.

Lemma findVirtualAgentandDisconnect_updated_run
    (remaining : list participant) (r : exn + unit) (s : state) :
  floating (findVirtualAgentandDisconnect_updated remaining r) s =
  match r with
  | inl e => (Normal tt, s, [unhandledRejection e])
  | inr _ =>
      match next_virtual_agent remaining with
      | None => (Normal tt, s, [console log [LString "Virtual agent call ended."]])
      | Some (p, remaining') =>
          (Normal tt,
           with_parked
             (fun l => l ++ [findVirtualAgentandDisconnect_awaits_update remaining']) s,
           [console log [LString "Virtual agent call ended."];
            calls_update (participant_callSid p) "completed"])
      end
  end.
Proof.
  destruct r as [e|[]]; [reflexivity|].
  unfold floating, try_catch, findVirtualAgentandDisconnect_updated, bind; simpl.
  rewrite disconnect_virtual_agents_run.
  by destruct (next_virtual_agent remaining) as [[p remaining']|].
Qed.

Lemma post_conference_events_run (rawBody : string) (s : state) :
  let parsedBody := Object_fromEntries (URLSearchParams rawBody) in
  post_conference_events rawBody s =
  if bool_decide (parsedBody !! "ParticipantLabel" = Some "human agent") &&
     bool_decide (parsedBody !! "StatusCallbackEvent" = Some "participant-join")
  then (Normal tt,
        with_parked (fun l => l ++ [findVirtualAgentandDisconnect_awaits_list]) s,
        [participants_list (parsedBody !! "ConferenceSid") 20])
  else (Normal tt, s, []).
Proof.
  simpl. unfold post_conference_events.
  by destruct (_ && _).
Qed.

Lemma next_virtual_agent_none (participants : list participant) :
  filter is_virtual_agent participants = [] ->
  next_virtual_agent participants = None.
Proof.
  induction participants as [|p remaining IH]; [reflexivity|].
  rewrite filter_cons. simpl. destruct (is_virtual_agent p) eqn:Hp.
  - rewrite decide_True by (by apply Is_true_true). discriminate.
  - rewrite decide_False by (by apply Is_true_false). exact IH.
Qed.

Lemma next_virtual_agent_only (participants : list participant) (va : participant) :
  filter is_virtual_agent participants = [va] ->
  exists remaining,
    next_virtual_agent participants = Some (va, remaining) /\
    next_virtual_agent remaining = None.
Proof.
  induction participants as [|p remaining IH]; [discriminate|].
  rewrite filter_cons. simpl. destruct (is_virtual_agent p) eqn:Hp.
  - rewrite decide_True by (by apply Is_true_true).
    intros [= -> Hrest]. exists remaining. split; [reflexivity|].
    by apply next_virtual_agent_none.
  - rewrite decide_False by (by apply Is_true_false). exact IH.
Qed.

Lemma handle_conference_events_other (rawBody : string) (answers : list answer) (s : state) :
  let parsedBody := Object_fromEntries (URLSearchParams rawBody) in
  ~ (parsedBody !! "ParticipantLabel" = Some "human agent" /\
     parsedBody !! "StatusCallbackEvent" = Some "participant-join") ->
  handle (post_conference_events rawBody) answers s = (s, []).
Proof.
  intros parsedBody Hno. unfold handle, exec.
  rewrite post_conference_events_run; cbv zeta; fold parsedBody.
  destruct (_ && _) eqn:Hc.
  - apply andb_true_iff in Hc as [H1 H2].
    apply bool_decide_eq_true in H1, H2. destruct Hno. by split.
  - by rewrite settle_floor.
Qed.

Lemma handle_conference_events_join
    (rawBody : string) (participants : list participant) (r : exn + unit) (s : state) :
  let parsedBody := Object_fromEntries (URLSearchParams rawBody) in
  parsedBody !! "ParticipantLabel" = Some "human agent" ->
  parsedBody !! "StatusCallbackEvent" = Some "participant-join" ->
  forall va remaining,
  next_virtual_agent participants = Some (va, remaining) ->
  next_virtual_agent remaining = None ->
  handle (post_conference_events rawBody) [listed (inr participants); updated r] s =
  (s,
   [participants_list (parsedBody !! "ConferenceSid") 20;
    calls_update (participant_callSid va) "completed"] ++
   match r with
   | inl e => [unhandledRejection e]
   | inr _ => [console log [LString "Virtual agent call ended."]]
   end).
Proof.
  intros parsedBody Hlabel Hevent va remaining Hva Hrest. unfold handle, exec.
  rewrite post_conference_events_run; cbv zeta; fold parsedBody.
  rewrite Hlabel, Hevent, !bool_decide_eq_true_2 by reflexivity. cbn [andb].
  erewrite settle_last; [| reflexivity | | reflexivity];
    [| cbn [parked with_parked]; rewrite length_app; simpl; lia].
  rewrite with_parked_restore. unfold exec at 1 2 3.
  rewrite findVirtualAgentandDisconnect_listed_run, Hva. cbn [fst snd].
  erewrite settle_last; [| reflexivity | | reflexivity];
    [| cbn [parked with_parked]; rewrite length_app; simpl; lia].
  rewrite with_parked_restore. unfold exec.
  rewrite findVirtualAgentandDisconnect_updated_run, Hrest.
  by destruct r as [e|[]].
Qed.

(** C4.  A conference status callback labelled [human agent] with event
    [participant-join], for a conference whose listed participants hold
    exactly one labelled [virtual agent], issues exactly one termination
    request, for that participant's call and with status [completed], and
    none for any other call, whatever the answer to that request; a
    callback with another label or another event issues no request to the
    provider (it does nothing at all). *)
Theorem human_join_ends_the_virtual_agent :
  (forall (rawBody : string) (participants : list participant) (va : participant)
          (r : exn + unit) (s : state),
      let parsedBody := Object_fromEntries (URLSearchParams rawBody) in
      parsedBody !! "ParticipantLabel" = Some "human agent" ->
      parsedBody !! "StatusCallbackEvent" = Some "participant-join" ->
      filter is_virtual_agent participants = [va] ->
      terminations
        (snd (handle (post_conference_events rawBody)
                     [listed (inr participants); updated r] s)) =
      [(participant_callSid va, "completed")]) /\
  (forall (rawBody : string) (answers : list answer) (s : state),
      let parsedBody := Object_fromEntries (URLSearchParams rawBody) in
      ~ (parsedBody !! "ParticipantLabel" = Some "human agent" /\
         parsedBody !! "StatusCallbackEvent" = Some "participant-join") ->
      filter is_provider_request
        (snd (handle (post_conference_events rawBody) answers s)) = []).
Proof.
  split.
  - intros rawBody participants va r s parsedBody Hlabel Hevent Hone.
    destruct (next_virtual_agent_only participants va Hone) as (remaining & Hva & Hrest).
    rewrite (handle_conference_events_join rawBody participants r s
               Hlabel Hevent va remaining Hva Hrest).
    by destruct r as [e|[]].
  - intros rawBody answers s parsedBody Hno.
    by rewrite handle_conference_events_other.
Qed.

Lemma settle_mismatch (floor : nat) (ans : answer) (rest : list answer) (s : state)
    (older : list activation) (a : activation) :
  parked s = older ++ [a] ->
  resume a ans = None ->
  settle floor (ans :: rest) s = (s, []).
Proof.
  intros Hp Hres. simpl. rewrite Hp, last_snoc, Hres.
  by destruct (_ <=? _)%nat.
Qed.

Lemma responses_app (out1 out2 : list event) :
  responses (out1 ++ out2) = responses out1 ++ responses out2.
Proof. apply omap_app. Qed.

Lemma settle_watcher_silent (answers : list answer) :
  forall (s : state) (older newer : list activation),
    parked s = older ++ newer ->
    Forall watcher_activation newer ->
    responses (snd (settle (length older) answers s)) = [].
Proof.
  induction answers as [|ans rest IH]; intros s older newer Hp Hw; [reflexivity|].
  destruct (decide (newer = [])) as [->|Hne].
  { rewrite settle_floor; [reflexivity|]. rewrite Hp, app_nil_r. lia. }
  destruct (exists_last Hne) as (newer' & a & ->). clear Hne. rename newer' into newer.
  apply Forall_app in Hw as [Hw Ha]. apply Forall_inv in Ha.
  rewrite app_assoc in Hp.
  destruct (resume a ans) as [m|] eqn:Hres;
    [|by rewrite (settle_mismatch _ _ _ _ _ _ Hp Hres)].
  rewrite (settle_last _ ans rest s _ a m Hp);
    [| rewrite !length_app; simpl; lia | exact Hres].
  cbn [snd]. rewrite responses_app.
  set (s0 := with_parked (fun _ => older ++ newer) s).
  assert (Hs0 : parked s0 = older ++ newer) by reflexivity.
  destruct a; try contradiction; destruct ans; try discriminate;
    injection Hres as Hm; subst m; unfold exec.
  - rewrite findVirtualAgentandDisconnect_listed_run.
    destruct r as [e|participants].
    + cbn [fst snd]. by rewrite (IH s0 older newer Hs0 Hw).
    + destruct (next_virtual_agent participants) as [[p remaining]|]; cbn [fst snd].
      * erewrite (IH _ older (newer ++ [_])); [reflexivity| |].
        -- cbn [parked with_parked]. rewrite Hs0, app_assoc. reflexivity.
        -- apply Forall_app; split; [exact Hw|]. by apply Forall_singleton.
      * by rewrite (IH s0 older newer Hs0 Hw).
  - rewrite findVirtualAgentandDisconnect_updated_run.
    destruct r as [e|[]].
    + cbn [fst snd]. by rewrite (IH s0 older newer Hs0 Hw).
    + destruct (next_virtual_agent remaining) as [[p remaining']|]; cbn [fst snd].
      * erewrite (IH _ older (newer ++ [_])); [reflexivity| |].
        -- cbn [parked with_parked]. rewrite Hs0, app_assoc. reflexivity.
        -- apply Forall_app; split; [exact Hw|]. by apply Forall_singleton.
      * by rewrite (IH s0 older newer Hs0 Hw).
Qed.

(** C6.  The handler of [POST /conference-events] never answers the
    request: no run of it, whatever the callback and whatever the
    provider answers afterwards, sends an HTTP response, so no status 200
    either. *)
Theorem conference_events_never_responds
    (rawBody : string) (answers : list answer) (s : state) :
  responses (snd (handle (post_conference_events rawBody) answers s)) = [].
Proof.
  unfold handle, exec.
  rewrite post_conference_events_run; cbv zeta.
  destruct (_ && _); cbn [fst snd].
  - destruct (settle _ _ _) as [s2 out2] eqn:Hs. cbn [snd].
    change out2 with (snd (s2, out2)). rewrite <- Hs.
    rewrite responses_app.
    erewrite (settle_watcher_silent answers _ (parked s) [_]); [reflexivity| |].
    + reflexivity.
    + by apply Forall_singleton.
  - by rewrite settle_floor.
Qed.


(** *** The webhook of the AI provider *)

Lemma post_root_catch_run (e : exn) (s : state) :
  post_root_catch e s =
  (Normal tt, s,
   [http_response
      (if is_invalid_signature e
       then Response 400 None [] (Some "Invalid signature")
       else Response 500 None [] (Some "Server error"))]).
Proof. unfold post_root_catch. by destruct (is_invalid_signature e). Qed.

Lemma post_root_unwrapped_run (r : exn + webhook_event) (s : state) :
  floating (post_root_unwrapped r) s =
  match r with
  | inl e => post_root_catch e s
  | inr event =>
      if bool_decide (event_type event = Some RealtimeIncomingCall) then
        let callId := template (event_data event ≫= call_id) in
        match scan_sip_headers (event_data event ≫= sip_headers) with
        | Thrown e => post_root_catch e s
        | Normal foundConferenceName =>
            (Normal tt,
             with_parked (fun l => l ++ [post_root_awaits_fetch callId])
               (write callIDtoConferenceName callId foundConferenceName s),
             [store_write callIDtoConferenceName callId foundConferenceName;
              fetch (acceptUrl callId) acceptInit])
        end
      else (Normal tt, s, [http_response (Response 200 None [] None)])
  end.
Proof.
  destruct r as [e|event].
  - unfold floating, post_root_unwrapped, try_catch; simpl.
    rewrite post_root_catch_run. reflexivity.
  - unfold floating, post_root_unwrapped, try_catch, bind; simpl.
    case_bool_decide; [|reflexivity].
    destruct (scan_sip_headers _) as [found|e]; simpl; [reflexivity|].
    rewrite post_root_catch_run. reflexivity.
Qed.

Lemma post_root_fetched_run (callId : string) (r : exn + fetch_response) (s : state) :
  floating (post_root_fetched callId r) s =
  match r with
  | inl e => post_root_catch e s
  | inr resp =>
      if resp_ok resp then
        (Normal tt,
         with_timers (fun l => l ++ [(wssUrl callId, 0)]) s,
         [setTimeout (wssUrl callId) 0;
          http_response
            (Response 200 None [("Authorization", "Bearer " +:+ OPENAI_API_KEY)] None)])
      else
        (Normal tt, s,
         [console error
            [LString "ACCEPT failed:"; LNumber (resp_status resp);
             LString (resp_statusText resp);
             LString match resp_text resp with inr t => t | inl _ => "" end];
          http_response (Response 500 None [] (Some "Accept failed"))])
  end.
Proof.
  destruct r as [e|resp].
  - unfold floating, post_root_fetched, try_catch; simpl.
    rewrite post_root_catch_run. reflexivity.
  - unfold floating, post_root_fetched, try_catch, bind; simpl.
    by destruct (resp_ok resp).
Qed.


Lemma handle_root_no_accept
    (rawBody : string) (headers : list (string * string)) (event : webhook_event)
    (answers : list answer) (s : state) :
  (event_type event <> Some RealtimeIncomingCall \/
   exists e, scan_sip_headers (event_data event ≫= sip_headers) = Thrown e) ->
  handle (floating (post_root rawBody headers)) (unwrapped (inr event) :: answers) s =
  (s, [http_response
         (if bool_decide (event_type event = Some RealtimeIncomingCall) then
            match scan_sip_headers (event_data event ≫= sip_headers) with
            | Thrown e =>
                if is_invalid_signature e
                then Response 400 None [] (Some "Invalid signature")
                else Response 500 None [] (Some "Server error")
            | Normal _ => Response 200 None [] None
            end
          else Response 200 None [] None)]).
Proof.
  intros Hno.
  unfold handle, exec, floating at 1, try_catch, post_root, park, update; cbn [fst snd].
  erewrite settle_last; [| reflexivity | | reflexivity];
    [| cbn [parked with_parked]; rewrite length_app; simpl; lia].
  rewrite with_parked_restore. unfold exec.
  rewrite post_root_unwrapped_run.
  case_bool_decide as Htype.
  - destruct Hno as [Hno|[e He]]; [done|]. rewrite He, post_root_catch_run.
    cbn [fst snd]. rewrite settle_floor by lia. by rewrite app_nil_r.
  - cbn [fst snd]. rewrite settle_floor by lia. by rewrite app_nil_r.
Qed.

Lemma handle_root_accept
    (rawBody : string) (headers : list (string * string)) (event : webhook_event)
    (r : exn + fetch_response) (answers : list answer) (s : state)
    (foundConferenceName : option string) :
  event_type event = Some RealtimeIncomingCall ->
  scan_sip_headers (event_data event ≫= sip_headers) = Normal foundConferenceName ->
  let callId := template (event_data event ≫= call_id) in
  let s1 := write callIDtoConferenceName callId foundConferenceName s in
  handle (floating (post_root rawBody headers))
         (unwrapped (inr event) :: fetched r :: answers) s =
  (fst (exec (floating (post_root_fetched callId r)) s1),
   [store_write callIDtoConferenceName callId foundConferenceName;
    fetch (acceptUrl callId) acceptInit] ++
   snd (exec (floating (post_root_fetched callId r)) s1)).
Proof.
  intros Htype Hscan callId s1.
  unfold handle, exec at 1, floating at 1, try_catch, post_root, park, update;
    cbn [fst snd].
  erewrite settle_last; [| reflexivity | | reflexivity];
    [| cbn [parked with_parked]; rewrite length_app; simpl; lia].
  rewrite with_parked_restore. unfold exec at 1 2 3.
  rewrite post_root_unwrapped_run, Htype, bool_decide_eq_true_2, Hscan by reflexivity.
  cbn [fst snd].
  erewrite settle_last; [| reflexivity | | reflexivity];
    [| cbn [parked with_parked]; rewrite length_app; simpl; lia].
  replace (with_parked _ (with_parked _ _)) with s1 by (by destruct s).
  fold callId.
  assert (Hpark : parked (fst (exec (floating (post_root_fetched callId r)) s1))
                  = parked s).
  { unfold exec. rewrite post_root_fetched_run.
    destruct r as [e|resp]; [by rewrite post_root_catch_run|].
    by destruct (resp_ok resp). }
  rewrite settle_floor by (rewrite Hpark; lia).
  cbn [fst snd]. by rewrite app_nil_r.
Qed.

Lemma accept_issued
    (rawBody : string) (headers : list (string * string)) (event : webhook_event)
    (answers : list answer) (s : state) :
  (exists url init,
      fetch url init ∈
        snd (handle (floating (post_root rawBody headers))
                    (unwrapped (inr event) :: answers) s)) ->
  event_type event = Some RealtimeIncomingCall /\
  exists foundConferenceName,
    scan_sip_headers (event_data event ≫= sip_headers) = Normal foundConferenceName.
Proof.
  intros (url & init & Hin).
  destruct (decide (event_type event = Some RealtimeIncomingCall)) as [Htype|Htype].
  - split; [exact Htype|].
    destruct (scan_sip_headers _) as [found|e] eqn:Hscan; [by eexists|].
    rewrite handle_root_no_accept in Hin by (right; by eexists).
    cbn [snd] in Hin. apply list_elem_of_singleton in Hin. discriminate.
  - rewrite handle_root_no_accept in Hin by (by left).
    cbn [snd] in Hin. apply list_elem_of_singleton in Hin. discriminate.
Qed.


(** C9.  When the accept request of an incoming-call webhook was made and
    answered with success, the one response to the webhook has status 200
    and carries the header [Authorization: Bearer <OPENAI_API_KEY>], the
    key as configured. *)
Theorem accepted_call_ack_carries_api_key
    (rawBody : string) (headers : list (string * string)) (event : webhook_event)
    (resp : fetch_response) (answers : list answer) (s : state) :
  let out :=
    snd (handle (floating (post_root rawBody headers))
                (unwrapped (inr event) :: fetched (inr resp) :: answers) s) in
  (exists url init, fetch url init ∈ out) ->
  resp_ok resp = true ->
  event_type event = Some RealtimeIncomingCall /\
  responses out =
    [Response 200 None [("Authorization", "Bearer " +:+ OPENAI_API_KEY)] None].
Proof.
  intros out Hissued Hok.
  destruct (accept_issued _ _ _ _ _ Hissued) as (Htype & found & Hscan).
  split; [exact Htype|]. subst out.
  rewrite (handle_root_accept rawBody headers event (inr resp) answers s found
             Htype Hscan).
  unfold exec. rewrite post_root_fetched_run, Hok. reflexivity.
Qed.

(** *** The realtime session *)

Lemma floating_completes (m : M unit) (s : state) :
  floating m s = (Normal tt, fst (exec (floating m) s), snd (exec (floating m) s)).
Proof.
  unfold exec, floating, try_catch.
  by destruct (m s) as [[[[]|e] s1] out1].
Qed.

Lemma addHuman_run (openAiCallId : string) (s : state) :
  addHuman openAiCallId s =
  match read callIDtoConferenceName openAiCallId s with
  | None | Some EmptyString =>
      (Normal tt, s,
       [console error [LString "Conference name is undefined for call ID:";
                       LString openAiCallId]])
  | Some conferenceName =>
      match read ConferenceNametoCallerID conferenceName s,
            read ConferenceNametoCallToken conferenceName s with
      | None, _ =>
          (Thrown (Error "CallerID is not defined"), s,
           [console log [LString "Adding human to conference:"; LString conferenceName]])
      | Some _, None =>
          (Thrown (Error "CallToken is not defined"), s,
           [console log [LString "Adding human to conference:"; LString conferenceName]])
      | Some callerID, Some callToken =>
          (Normal tt,
           with_parked (fun l => l ++ [addHuman_awaits_create]) s,
           [console log [LString "Adding human to conference:"; LString conferenceName];
            participants_create conferenceName
              {| p_from := Some callerID;
                 p_label := "human agent";
                 p_to := HUMAN_AGENT_NUMBER;
                 p_earlyMedia := false;
                 p_callToken := Some callToken;
                 p_conferenceStatusCallback := None;
                 p_conferenceStatusCallbackEvent := None |}])
      end
  end.
Proof.
  unfold addHuman, bind, entry, inspect; simpl.
  destruct (read callIDtoConferenceName openAiCallId s) as [[|c conferenceName]|];
    try reflexivity.
  simpl.
  destruct (read ConferenceNametoCallerID _ s) as [callerID|];
    destruct (read ConferenceNametoCallToken _ s) as [callToken|]; reflexivity.
Qed.


Lemma handoff_test (response : json) :
  handoff_trigger response =
  negb (nullish response) &&
  is_string (property response "type") "response.done" &&
  truthy (first_output response) &&
  (is_string (optional (first_output response) "type") "function_call" &&
   is_string (optional (first_output response) "name") "addHumanAgent" &&
   truthy (optional (first_output response) "call_id")).
Proof.
  unfold handoff_trigger, response_done_with_item.
  by rewrite <- !andb_assoc.
Qed.

(** A message that does not trigger the hand-off: at most a line on the
    console. *)
Lemma on_message_untriggered (uri data : string) (s : state) :
  match JSON_parse data with
  | inl _ => True
  | inr response => handoff_trigger response = false
  end ->
  exists out,
    on_message uri data s = (Normal tt, s, out) /\
    Forall (fun e => is_console e = true) out.
Proof.
  unfold on_message, try_catch, bind.
  destruct (JSON_parse data) as [e|response]; simpl.
  { intros _. eexists. split; [reflexivity|]. by repeat constructor. }
  rewrite handoff_test.
  destruct (nullish response); simpl.
  { intros _. eexists. split; [reflexivity|]. by repeat constructor. }
  destruct (is_string (property response "type") "response.done"); simpl;
    [|intros _; eexists; split; [reflexivity|]; by constructor].
  destruct (truthy (first_output response)); simpl;
    [|intros _; eexists; split; [reflexivity|]; by constructor].
  unfold handleFunctionCall. intros ->.
  eexists; split; [reflexivity|]; by constructor.
Qed.

(** A message that triggers it. *)
Lemma on_message_triggered (uri data : string) (response : json) (s : state) :
  JSON_parse data = inr response ->
  handoff_trigger response = true ->
  on_message uri data s =
  match URL_new uri with
  | inl e =>
      (Normal tt, s,
       [console error [LString "Error processing OpenAI message:"; LError e;
                       LString "Raw message:"; LString data]])
  | inr url =>
      match searchParams_get url "call_id" with
      | Some (String c r) =>
          (Normal tt,
           fst (exec (floating (addHuman (String c r))) s),
           snd (exec (floating (addHuman (String c r))) s) ++
           [ws_send uri keepChatting; ws_send uri responseCreateEmpty])
      | _ =>
          (Normal tt, s,
           [console error [LString "Call ID is null, cannot add human agent."];
            ws_send uri keepChatting; ws_send uri responseCreateEmpty])
      end
  end.
Proof.
  intros Hparse Htrig. rewrite handoff_test in Htrig.
  apply andb_true_iff in Htrig as [Htrig Hcall].
  apply andb_true_iff in Htrig as [Htrig Hitem].
  apply andb_true_iff in Htrig as [Hnull Hdone].
  apply negb_true_iff in Hnull.
  unfold on_message, try_catch, bind. rewrite Hparse; simpl.
  rewrite Hnull; simpl. rewrite Hdone, Hitem; simpl.
  unfold handleFunctionCall. rewrite Hcall.
  unfold bind. destruct (URL_new uri) as [e|url]; simpl; [reflexivity|].
  destruct (searchParams_get url "call_id") as [[|c r]|]; try reflexivity.
  rewrite floating_completes. simpl.
  by destruct (exec _ s).
Qed.


(** C8.  A realtime message that does not parse, or that is not a
    [response.done] with a first output item, has no effect but lines on
    the console and leaves the listener normally; no message at all makes
    the listener throw; and a message after which the state has changed or
    something else than a console line was emitted is a [response.done]
    whose first output item is a [function_call] named [addHumanAgent]
    with a [call_id]. *)
Theorem only_handoff_calls_act (uri data : string) (s : state) :
  (match JSON_parse data with
   | inl _ => True
   | inr response => response_done_with_item response = false
   end ->
   exists out,
     on_message uri data s = (Normal tt, s, out) /\
     Forall (fun e => is_console e = true) out) /\
  (exists s' out, on_message uri data s = (Normal tt, s', out)) /\
  (forall c s' out,
      on_message uri data s = (c, s', out) ->
      s' <> s \/ Exists (fun e => is_console e = false) out ->
      exists response,
        JSON_parse data = inr response /\ handoff_trigger response = true).
Proof.
  split; [|split].
  - intros Hno. apply on_message_untriggered.
    destruct (JSON_parse data) as [e|response]; [exact I|].
    unfold handoff_trigger. by rewrite Hno.
  - destruct (JSON_parse data) as [e|response] eqn:Hparse.
    + destruct (on_message_untriggered uri data s) as (out & Hrun & _);
        [by rewrite Hparse|]. eauto.
    + destruct (handoff_trigger response) eqn:Htrig.
      * rewrite (on_message_triggered uri data response s Hparse Htrig).
        destruct (URL_new uri) as [e|url]; [eauto|].
        destruct (searchParams_get url "call_id") as [[|c r]|]; eauto.
      * destruct (on_message_untriggered uri data s) as (out & Hrun & _);
          [by rewrite Hparse|]. eauto.
  - intros c s' out Hrun Hacts.
    assert (Hquiet :
              ~ match JSON_parse data with
                | inl _ => True
                | inr response => handoff_trigger response = false
                end).
    { intros Hno.
      destruct (on_message_untriggered uri data s Hno) as (out0 & Hrun0 & Hout0).
      rewrite Hrun in Hrun0. injection Hrun0 as _ -> ->.
      destruct Hacts as [Hs|Hex]; [done|].
      apply Exists_exists in Hex as (e & Hin & He).
      rewrite Forall_forall in Hout0.
      specialize (Hout0 e Hin). congruence. }
    destruct (JSON_parse data) as [e|response]; [by destruct Hquiet|].
    destruct (handoff_trigger response) eqn:Htrig; [|by destruct Hquiet].
    exists response. split; [reflexivity | exact Htrig].
Qed.


(** *** Order of the correlation write and the session *)

Lemma quiet_post_incoming_call (rawBody : string) : quiet (post_incoming_call rawBody).
Proof.
  intros s. unfold exec. rewrite post_incoming_call_run. quiet_run.
Qed.

Lemma quiet_post_conference_events (rawBody : string) :
  quiet (post_conference_events rawBody).
Proof.
  intros s. unfold exec. rewrite post_conference_events_run. cbv zeta.
  destruct (_ && _); quiet_run.
Qed.

Lemma quiet_get_health : quiet get_health.
Proof. intros s. quiet_run. Qed.

Lemma quiet_post_root (rawBody : string) (headers : list (string * string)) :
  quiet (floating (post_root rawBody headers)).
Proof. intros s. quiet_run. Qed.

Lemma quiet_on_open (uri : string) : quiet (on_open uri).
Proof. intros s. quiet_run. Qed.

Lemma quiet_on_error (uri : string) (e : exn) : quiet (on_error uri e).
Proof. intros s. quiet_run. Qed.

Lemma quiet_on_close (uri : string) (code : nat) (reason : string) :
  quiet (on_close uri code reason).
Proof. intros s. quiet_run. Qed.

Lemma quiet_createParticipant_resumed (r : exn + unit) :
  quiet (floating (createParticipant_resumed r)).
Proof. intros s. destruct r as [e|[]]; quiet_run. Qed.

Lemma quiet_addHuman_resumed (r : exn + unit) :
  quiet (floating (addHuman_resumed r)).
Proof. intros s. destruct r as [e|[]]; quiet_run. Qed.

Lemma quiet_findVirtualAgentandDisconnect_listed (r : exn + list participant) :
  quiet (floating (findVirtualAgentandDisconnect_listed r)).
Proof.
  intros s. unfold exec. rewrite findVirtualAgentandDisconnect_listed_run.
  destruct r as [e|participants]; [quiet_run|].
  destruct (next_virtual_agent participants) as [[p remaining]|]; quiet_run.
Qed.

Lemma quiet_findVirtualAgentandDisconnect_updated
    (remaining : list participant) (r : exn + unit) :
  quiet (floating (findVirtualAgentandDisconnect_updated remaining r)).
Proof.
  intros s. unfold exec. rewrite findVirtualAgentandDisconnect_updated_run.
  destruct r as [e|[]]; [quiet_run|].
  destruct (next_virtual_agent remaining) as [[p remaining']|]; quiet_run.
Qed.

Lemma quiet_addHuman (openAiCallId : string) : quiet (floating (addHuman openAiCallId)).
Proof.
  intros s. unfold exec, floating, try_catch. rewrite addHuman_run.
  destruct (read callIDtoConferenceName openAiCallId s) as [[|c conferenceName]|];
    [quiet_run| |quiet_run].
  destruct (read ConferenceNametoCallerID (String c conferenceName) s);
    destruct (read ConferenceNametoCallToken (String c conferenceName) s); quiet_run.
Qed.

Lemma quiet_on_message (uri data : string) : quiet (on_message uri data).
Proof.
  intros s.
  assert (Hsilent :
            match JSON_parse data with
            | inl _ => True
            | inr response => handoff_trigger response = false
            end ->
            callIDtoConferenceNameMapping (fst (exec (on_message uri data) s)) =
              callIDtoConferenceNameMapping s /\
            timers (fst (exec (on_message uri data) s)) = timers s /\
            sockets (fst (exec (on_message uri data) s)) = sockets s /\
            (forall callId,
                post_root_awaits_fetch callId ∈ parked (fst (exec (on_message uri data) s)) ->
                post_root_awaits_fetch callId ∈ parked s) /\
            Forall (fun e => is_session_event e = false)
                   (snd (exec (on_message uri data) s))).
  { intros Hno.
    destruct (on_message_untriggered uri data s Hno) as (out & Hrun & Hout).
    unfold exec. rewrite Hrun. cbn [fst snd].
    repeat split; try done.
    eapply Forall_impl; [exact Hout|]. by intros []. }
  destruct (JSON_parse data) as [e|response] eqn:Hparse; [by apply Hsilent|].
  destruct (handoff_trigger response) eqn:Htrig; [|by apply Hsilent].
  clear Hsilent. unfold exec at 1 2 3 4 5.
  rewrite (on_message_triggered uri data response s Hparse Htrig).
  destruct (URL_new uri) as [e|url]; [quiet_run|].
  destruct (searchParams_get url "call_id") as [[|c r]|]; [quiet_run| |quiet_run].
  destruct (quiet_addHuman (String c r) s) as (H1 & H2 & H3 & H4 & H5).
  cbn [fst snd]. repeat split; try done.
  apply Forall_app. split; [exact H5|]. by repeat constructor.
Qed.

Lemma recorded_mono (tr out : list event) (s s' : state) (callId : string) :
  (forall k, is_Some (callIDtoConferenceNameMapping s !! k) ->
             is_Some (callIDtoConferenceNameMapping s' !! k)) ->
  recorded tr s callId -> recorded (tr ++ out) s' callId.
Proof.
  intros Hkeys [Hkey (v & i & Hi)]. split; [by apply Hkeys|].
  exists v, i. by apply lookup_app_l_Some.
Qed.

Lemma session_ready_mono (tr out : list event) (s s' : state) (uri : string) :
  (forall k, is_Some (callIDtoConferenceNameMapping s !! k) ->
             is_Some (callIDtoConferenceNameMapping s' !! k)) ->
  session_ready tr s uri -> session_ready (tr ++ out) s' uri.
Proof.
  intros Hkeys (callId & Huri & Hrec). exists callId.
  split; [exact Huri | by eapply recorded_mono].
Qed.

Lemma after_its_write_mono (tr out : list event) (j : nat) (e : event) :
  after_its_write tr j e -> after_its_write (tr ++ out) j e.
Proof.
  intros (callId & v & i & Hlt & Hi & He). exists callId, v, i.
  split; [exact Hlt|]. split; [by apply lookup_app_l_Some | exact He].
Qed.

(** One turn keeps the invariant when what it adds is in order. *)
Lemma invariant_step (tr out : list event) (s s' : state) :
  invariant tr s ->
  (forall k, is_Some (callIDtoConferenceNameMapping s !! k) ->
             is_Some (callIDtoConferenceNameMapping s' !! k)) ->
  (forall uri delay, (uri, delay) ∈ timers s' ->
                     (uri, delay) ∈ timers s \/ session_ready (tr ++ out) s' uri) ->
  (forall uri, uri ∈ sockets s' ->
               uri ∈ sockets s \/
               (session_ready (tr ++ out) s' uri /\ exists url, URL_new uri = inr url)) ->
  (forall callId, post_root_awaits_fetch callId ∈ parked s' ->
                  post_root_awaits_fetch callId ∈ parked s \/
                  recorded (tr ++ out) s' callId) ->
  (forall j e, out !! j = Some e -> is_session_event e = true ->
               after_its_write (tr ++ out) (length tr + j) e) ->
  invariant (tr ++ out) s'.
Proof.
  intros (Itimers & Isockets & Iparked & Itrace) Hkeys Htimers Hsockets Hparked Hout.
  repeat split.
  - intros uri delay Hin. destruct (Htimers uri delay Hin) as [Hold|Hnew]; [|exact Hnew].
    eapply session_ready_mono; [exact Hkeys | by eapply Itimers].
  - destruct (Hsockets uri H) as [Hold|[Hnew _]]; [|exact Hnew].
    eapply session_ready_mono; [exact Hkeys | by apply Isockets].
  - destruct (Hsockets uri H) as [Hold|[_ Hnew]]; [|exact Hnew].
    by apply Isockets.
  - destruct (Hparked callId H) as [Hold|[Hnew _]]; [|exact Hnew].
    apply Hkeys. by apply Iparked.
  - destruct (Hparked callId H) as [Hold|[_ Hnew]]; [|exact Hnew].
    destruct (Iparked callId Hold) as [_ (v & i & Hi)].
    exists v, i. by apply lookup_app_l_Some.
  - intros j e Hj He.
    destruct (decide (j < length tr)) as [Hlt|Hge].
    + rewrite lookup_app_l in Hj by exact Hlt.
      apply after_its_write_mono. by apply Itrace.
    + rewrite lookup_app_r in Hj by lia.
      replace j with (length tr + (j - length tr)) at 1 by lia.
      by apply Hout.
Qed.

Lemma invariant_shrunk (tr : list event) (s0 s : state) :
  invariant tr s -> shrunk s0 s -> invariant tr s0.
Proof.
  intros Hinv (Hmap & Htimers & Hsockets & Hparked).
  rewrite <- (app_nil_r tr). apply (invariant_step tr [] s s0 Hinv).
  - intros k. by rewrite Hmap.
  - intros uri delay Hin. left. by apply Htimers.
  - intros uri Hin. left. by apply Hsockets.
  - intros callId Hin. left. by apply Hparked.
  - intros j e Hj. by rewrite lookup_nil in Hj.
Qed.

Lemma invariant_quiet (tr : list event) (s : state) (m : M unit) :
  invariant tr s -> quiet m ->
  invariant (tr ++ snd (exec m s)) (fst (exec m s)).
Proof.
  intros Hinv Hquiet. destruct (Hquiet s) as (Hmap & Htimers & Hsockets & Hparked & Hout).
  apply (invariant_step tr _ s _ Hinv).
  - intros k. by rewrite Hmap.
  - intros uri delay Hin. left. by rewrite <- Htimers.
  - intros uri Hin. left. by rewrite <- Hsockets.
  - intros callId Hin. left. by apply Hparked.
  - intros j e Hj He. rewrite Forall_forall in Hout.
    apply list_elem_of_lookup_2 in Hj. specialize (Hout e Hj). congruence.
Qed.

Lemma quiet_post_root_catch (e : exn) : quiet (post_root_catch e).
Proof.
  intros s. unfold exec. rewrite post_root_catch_run. quiet_run.
Qed.

Lemma keys_after_write (s : state) (callId : string) (v : option string) (k : string) :
  is_Some (callIDtoConferenceNameMapping s !! k) ->
  is_Some (callIDtoConferenceNameMapping (write callIDtoConferenceName callId v s) !! k).
Proof.
  intros Hk. cbn. destruct (decide (callId = k)) as [->|Hne].
  - rewrite lookup_insert_eq. by eexists.
  - by rewrite lookup_insert_ne.
Qed.

Lemma invariant_unwrapped (tr : list event) (s : state) (r : exn + webhook_event) :
  invariant tr s ->
  invariant (tr ++ snd (exec (floating (post_root_unwrapped r)) s))
            (fst (exec (floating (post_root_unwrapped r)) s)).
Proof.
  intros Hinv. unfold exec. rewrite post_root_unwrapped_run.
  destruct r as [e|event]; [apply (invariant_quiet tr s _ Hinv (quiet_post_root_catch e))|].
  case_bool_decide as Htype.
  2:{ apply (invariant_step tr _ s _ Hinv); cbn; try tauto.
      intros [|[|j]] e Hj He; cbn in Hj; simplify_eq; discriminate He. }
  destruct (scan_sip_headers _) as [found|e];
    [|apply (invariant_quiet tr s _ Hinv (quiet_post_root_catch e))].
  cbv zeta. set (callId := template (event_data event ≫= call_id)).
  cbn [fst snd].
  apply (invariant_step tr _ s _ Hinv).
  - intros k Hk. by apply keys_after_write.
  - intros uri delay Hin. by left.
  - intros uri Hin. by left.
  - intros c Hin. cbn in Hin. apply elem_of_app in Hin as [Hin|Hin]; [by left|].
    apply list_elem_of_singleton in Hin. injection Hin as ->. right. split.
    + cbn. rewrite lookup_insert_eq. by eexists.
    + exists found, (length tr). rewrite lookup_app_r by lia.
      by rewrite Nat.sub_diag.
  - intros [|[|[|j]]] e Hj He; cbn in Hj; simplify_eq; try discriminate He.
    exists callId, found, (length tr). split; [lia|]. split; [|by left].
    rewrite lookup_app_r by lia. by rewrite Nat.sub_diag.
Qed.

Lemma invariant_fetched
    (tr : list event) (s : state) (callId : string) (r : exn + fetch_response) :
  invariant tr s ->
  recorded tr s callId ->
  invariant (tr ++ snd (exec (floating (post_root_fetched callId r)) s))
            (fst (exec (floating (post_root_fetched callId r)) s)).
Proof.
  intros Hinv Hrec. unfold exec. rewrite post_root_fetched_run.
  destruct r as [e|resp]; [apply (invariant_quiet tr s _ Hinv (quiet_post_root_catch e))|].
  destruct (resp_ok resp); cbn [fst snd].
  - apply (invariant_step tr _ s _ Hinv).
    + tauto.
    + intros uri delay Hin. cbn in Hin.
      apply elem_of_app in Hin as [Hin|Hin]; [by left|].
      apply list_elem_of_singleton in Hin. injection Hin as -> ->. right.
      exists callId. split; [reflexivity|]. by eapply recorded_mono.
    + intros uri Hin. by left.
    + intros c Hin. by left.
    + intros [|[|[|j]]] e Hj He; cbn in Hj; simplify_eq; try discriminate He.
      destruct Hrec as [_ (v & i & Hi)].
      exists callId, v, i. split; [apply lookup_lt_Some in Hi; lia|].
      split; [by apply lookup_app_l_Some | right; by left].
  - apply (invariant_step tr _ s _ Hinv); cbn; try tauto.
    intros [|[|[|j]]] e Hj He; cbn in Hj; simplify_eq; discriminate He.
Qed.

Lemma invariant_timer (tr : list event) (s : state) (uri : string) :
  invariant tr s ->
  session_ready tr s uri ->
  invariant (tr ++ snd (exec (floating (websocketTask uri)) s))
            (fst (exec (floating (websocketTask uri)) s)).
Proof.
  intros Hinv Hready. unfold exec, floating, try_catch, websocketTask.
  destruct (URL_new uri) as [e|url] eqn:Hurl; cbn.
  - apply (invariant_step tr _ s _ Hinv); cbn; try tauto.
    intros [|[|j]] e' Hj He; cbn in Hj; simplify_eq; discriminate He.
  - apply (invariant_step tr _ s _ Hinv).
    + tauto.
    + intros u delay Hin. by left.
    + intros u Hin. cbn in Hin.
      apply elem_of_app in Hin as [Hin|Hin]; [by left|].
      apply list_elem_of_singleton in Hin. subst u. right.
      split; [|by eexists]. by eapply session_ready_mono.
    + intros c Hin. by left.
    + intros [|[|j]] e' Hj He; cbn in Hj; simplify_eq; try discriminate He.
      destruct Hready as (callId & -> & [_ (v & i & Hi)]).
      exists callId, v, i. split; [apply lookup_lt_Some in Hi; lia|].
      split; [by apply lookup_app_l_Some | right; right; by eexists].
Qed.

Lemma shrunk_delete_parked (i : nat) (s : state) : shrunk (with_parked (delete i) s) s.
Proof.
  repeat split; cbn; try done. intros a Hin.
  by eapply list_elem_of_delete_inv.
Qed.

Lemma shrunk_delete_timers (i : nat) (s : state) : shrunk (with_timers (delete i) s) s.
Proof.
  repeat split; cbn; try done. intros a Hin.
  by eapply list_elem_of_delete_inv.
Qed.

Lemma shrunk_delete_sockets (i : nat) (s : state) : shrunk (with_sockets (delete i) s) s.
Proof.
  repeat split; cbn; try done. intros a Hin.
  by eapply list_elem_of_delete_inv.
Qed.

Lemma recorded_shrunk (tr : list event) (s0 s : state) (callId : string) :
  shrunk s0 s -> recorded tr s callId -> recorded tr s0 callId.
Proof.
  intros (Hmap & _) [Hkey Hwrite]. split; [by rewrite Hmap | exact Hwrite].
Qed.

(** Every turn keeps the invariant. *)
Lemma invariant_turn (tr out : list event) (s s' : state) :
  invariant tr s -> turn s out s' -> invariant (tr ++ out) s'.
Proof.
  intros Hinv Hturn. destruct Hturn.
  - apply (invariant_quiet _ _ _ Hinv (quiet_post_incoming_call rawBody)).
  - apply (invariant_quiet _ _ _ Hinv (quiet_post_conference_events rawBody)).
  - apply (invariant_quiet _ _ _ Hinv quiet_get_health).
  - apply (invariant_quiet _ _ _ Hinv (quiet_post_root rawBody headers)).
  - pose proof (shrunk_delete_parked i s) as Hshrunk.
    pose proof (invariant_shrunk tr _ s Hinv Hshrunk) as Hinv0.
    destruct a, ans; try discriminate; injection H0 as <-.
    + apply (invariant_quiet _ _ _ Hinv0 (quiet_createParticipant_resumed r)).
    + apply (invariant_quiet _ _ _ Hinv0 (quiet_findVirtualAgentandDisconnect_listed r)).
    + apply (invariant_quiet _ _ _ Hinv0
               (quiet_findVirtualAgentandDisconnect_updated remaining r)).
    + apply (invariant_quiet _ _ _ Hinv0 (quiet_addHuman_resumed r)).
    + by apply invariant_unwrapped.
    + apply invariant_fetched; [exact Hinv0|].
      apply (recorded_shrunk tr _ s callId Hshrunk).
      destruct Hinv as (_ & _ & Hparked & _). apply Hparked.
      by eapply list_elem_of_lookup_2.
  - pose proof (shrunk_delete_timers i s) as Hshrunk.
    pose proof (invariant_shrunk tr _ s Hinv Hshrunk) as Hinv0.
    apply invariant_timer; [exact Hinv0|].
    destruct Hinv as (Htimers & _).
    destruct (Htimers uri delay) as (callId & Huri & Hrec);
      [by eapply list_elem_of_lookup_2|].
    exists callId. split; [exact Huri | by eapply recorded_shrunk].
  - apply (invariant_quiet _ _ _ Hinv (quiet_on_open uri)).
  - apply (invariant_quiet _ _ _ Hinv (quiet_on_message uri data)).
  - apply (invariant_quiet _ _ _ Hinv (quiet_on_error uri e)).
  - pose proof (shrunk_delete_sockets i s) as Hshrunk.
    pose proof (invariant_shrunk tr _ s Hinv Hshrunk) as Hinv0.
    apply (invariant_quiet _ _ _ Hinv0 (quiet_on_close uri code reason)).
Qed.

Lemma reachable_invariant (tr : list event) (s : state) :
  reachable tr s -> invariant tr s.
Proof.
  induction 1 as [|tr s out s' _ IH Hturn].
  - repeat split; cbn; intros; try by apply elem_of_nil in H.
    by rewrite lookup_nil in H.
  - by eapply invariant_turn.
Qed.

(** C3.  In every run of the server, the accept request for a call, the
    scheduling of its realtime socket and the opening of that socket come
    in the trace after a write of the entry [call_id -> conferenceName]
    of that call; and every socket the process holds, which are the only
    ones whose events it processes, belongs to a call whose entry is in
    the table and was written before. *)
Theorem correlation_precedes_session (tr : list event) (s : state) :
  reachable tr s ->
  (forall j e, tr !! j = Some e -> is_session_event e = true ->
               after_its_write tr j e) /\
  (forall uri, uri ∈ sockets s -> session_ready tr s uri).
Proof.
  intros Hreach.
  destruct (reachable_invariant tr s Hreach) as (_ & Hsockets & _ & Htrace).
  split; [exact Htrace|].
  intros uri Hin. by destruct (Hsockets uri Hin).
Qed.

(** C10.  On a socket the process holds, a [response.done] whose first
    output item is a [function_call] named [addHumanAgent] with a
    [call_id] makes the listener send the keep-chatting user message and
    then the empty [response.create], as its last two events and its only
    sends, whether or not a call id comes out of the address and whether
    or not a human participant is requested; the listener returns
    normally. *)
Theorem engagement_instructions_always_sent
    (tr : list event) (s : state) (uri data : string) (response : json) :
  reachable tr s ->
  uri ∈ sockets s ->
  JSON_parse data = inr response ->
  handoff_trigger response = true ->
  exists s' before,
    on_message uri data s =
    (Normal tt, s', before ++ [ws_send uri keepChatting; ws_send uri responseCreateEmpty]) /\
    Forall (fun e => forall u m, e <> ws_send u m) before.
Proof.
  intros Hreach Hin Hparse Htrig.
  destruct (reachable_invariant tr s Hreach) as (_ & Hsockets & _).
  destruct (Hsockets uri Hin) as [_ [url Hurl]].
  rewrite (on_message_triggered uri data response s Hparse Htrig), Hurl.
  destruct (searchParams_get url "call_id") as [[|c r]|].
  - eexists s, [_]. split; [reflexivity|]. by repeat constructor.
  - eexists _, _. split; [reflexivity|].
    unfold exec, floating, try_catch. rewrite addHuman_run.
    destruct (read callIDtoConferenceName (String c r) s) as [[|c' conferenceName]|];
      [by repeat constructor| |by repeat constructor].
    destruct (read ConferenceNametoCallerID (String c' conferenceName) s);
      destruct (read ConferenceNametoCallToken (String c' conferenceName) s);
      by repeat constructor.
  - eexists s, [_]. split; [reflexivity|]. by repeat constructor.
Qed.

(** *** Handler runs are runs of the event loop *)

Lemma removelast_delete {A} (l : list A) : removelast l = delete (pred (length l)) l.
Proof.
  destruct (decide (l = [])) as [->|Hne]; [reflexivity|].
  destruct (exists_last Hne) as (l' & a & ->).
  rewrite removelast_last, length_app, Nat.add_1_r. cbn [pred].
  by rewrite delete_middle, app_nil_r.
Qed.

Lemma settle_reachable (floor : nat) (answers : list answer) :
  forall (tr : list event) (s : state),
    reachable tr s ->
    reachable (tr ++ snd (settle floor answers s)) (fst (settle floor answers s)).
Proof.
  induction answers as [|ans rest IH]; intros tr s Hreach; cbn [settle].
  { by rewrite app_nil_r. }
  destruct (_ <=? _)%nat; [by rewrite app_nil_r|].
  destruct (last (parked s)) as [a|] eqn:Hlast; [|by rewrite app_nil_r].
  destruct (resume a ans) as [m|] eqn:Hres; [|by rewrite app_nil_r].
  assert (Hturn :
            reachable (tr ++ snd (exec m (with_parked (fun l => removelast l) s)))
                      (fst (exec m (with_parked (fun l => removelast l) s)))).
  { replace (with_parked (fun l => removelast l) s)
      with (with_parked (delete (pred (length (parked s)))) s)
      by (unfold with_parked; by rewrite removelast_delete).
    eapply reachable_turn; [exact Hreach|].
    eapply turn_answer; [|exact Hres]. by rewrite <- last_lookup. }
  destruct (exec m _) as [s1 out1]. cbn [fst snd] in Hturn.
  specialize (IH _ _ Hturn). destruct (settle floor rest s1) as [s2 out2].
  cbn [fst snd] in *. by rewrite app_assoc.
Qed.

Lemma handle_reachable (m : M unit) (answers : list answer) (tr : list event) (s : state) :
  turn s (snd (exec m s)) (fst (exec m s)) ->
  reachable tr s ->
  reachable (tr ++ snd (handle m answers s)) (fst (handle m answers s)).
Proof.
  intros Hturn Hreach. unfold handle.
  pose proof (settle_reachable (length (parked s)) answers _ _
                (reachable_turn _ _ _ _ Hreach Hturn)) as Hrun.
  destruct (exec m s) as [s1 out1]. cbn [fst snd] in Hrun.
  destruct (settle _ answers s1) as [s2 out2]. cbn [fst snd] in *.
  by rewrite app_assoc.
Qed.

(** A hand-off for a call whose conference has no caller number on record:
    the throw inside [addHuman] rejects its promise, which nobody holds. *)
Lemma addHuman_rejects_without_caller
    (openAiCallId : string) (c : ascii) (conferenceName : string) (s : state) :
  read callIDtoConferenceName openAiCallId s = Some (String c conferenceName) ->
  read ConferenceNametoCallerID (String c conferenceName) s = None ->
  floating (addHuman openAiCallId) s =
  (Normal tt, s,
   [console log [LString "Adding human to conference:";
                 LString (String c conferenceName)];
    unhandledRejection (Error "CallerID is not defined")]).
Proof.
  intros Hname Hcaller. unfold floating, try_catch.
  by rewrite addHuman_run, Hname, Hcaller.
Qed.

(** ** Further properties of the handlers *)

(** *** The message listener, by cases *)

Lemma on_message_shape (uri data : string) (s : state) :
  (exists out,
      on_message uri data s = (Normal tt, s, out) /\
      Forall (fun e => is_console e = true \/
                       (exists x, e = unhandledRejection x) \/
                       (exists m, e = ws_send uri m)) out) \/
  (exists openAiCallId c conferenceName callerID callToken,
      read callIDtoConferenceName openAiCallId s = Some (String c conferenceName) /\
      read ConferenceNametoCallerID (String c conferenceName) s = Some callerID /\
      read ConferenceNametoCallToken (String c conferenceName) s = Some callToken /\
      on_message uri data s =
      (Normal tt,
       with_parked (fun l => l ++ [addHuman_awaits_create]) s,
       [console log [LString "Adding human to conference:";
                     LString (String c conferenceName)];
        participants_create (String c conferenceName)
          {| p_from := Some callerID;
             p_label := "human agent";
             p_to := HUMAN_AGENT_NUMBER;
             p_earlyMedia := false;
             p_callToken := Some callToken;
             p_conferenceStatusCallback := None;
             p_conferenceStatusCallbackEvent := None |};
        ws_send uri keepChatting;
        ws_send uri responseCreateEmpty])).
Proof.
  assert (Hsilent :
            match JSON_parse data with
            | inl _ => True
            | inr response => handoff_trigger response = false
            end ->
            exists out,
              on_message uri data s = (Normal tt, s, out) /\
              Forall (fun e => is_console e = true \/
                               (exists x, e = unhandledRejection x) \/
                               (exists m, e = ws_send uri m)) out).
  { intros Hno.
    destruct (on_message_untriggered uri data s Hno) as (out & Hrun & Hout).
    exists out. split; [exact Hrun|].
    eapply Forall_impl; [exact Hout|]. intros e He. by left. }
  destruct (JSON_parse data) as [e|response] eqn:Hparse; [left; by apply Hsilent|].
  destruct (handoff_trigger response) eqn:Htrig; [|left; by apply Hsilent].
  clear Hsilent. rewrite (on_message_triggered uri data response s Hparse Htrig).
  destruct (URL_new uri) as [e|url].
  { left. eexists. split; [reflexivity|]. shape_events. }
  destruct (searchParams_get url "call_id") as [[|c0 r0]|].
  - left. eexists. split; [reflexivity|].
    shape_events.
  - unfold exec, floating, try_catch. rewrite addHuman_run.
    destruct (read callIDtoConferenceName (String c0 r0) s)
      as [[|c conferenceName]|] eqn:Hname.
    + left. eexists. split; [reflexivity|].
      shape_events.
    + destruct (read ConferenceNametoCallerID (String c conferenceName) s)
        as [callerID|] eqn:Hcaller;
        destruct (read ConferenceNametoCallToken (String c conferenceName) s)
        as [callToken|] eqn:Htoken.
      * right. exists (String c0 r0), c, conferenceName, callerID, callToken.
        repeat split; assumption.
      * left. eexists. split; [reflexivity|].
        constructor; [by left|]. constructor; [right; left; by eexists|].
        shape_events.
      * left. eexists. split; [reflexivity|].
        constructor; [by left|]. constructor; [right; left; by eexists|].
        shape_events.
      * left. eexists. split; [reflexivity|].
        constructor; [by left|]. constructor; [right; left; by eexists|].
        shape_events.
    + left. eexists. split; [reflexivity|].
      shape_events.
  - left. eexists. split; [reflexivity|].
    shape_events.
Qed.

Lemma table_with_parked (m : mapping) f (s : state) :
  table m (with_parked f s) = table m s.
Proof. by destruct m. Qed.

Lemma table_with_timers (m : mapping) f (s : state) :
  table m (with_timers f s) = table m s.
Proof. by destruct m. Qed.

Lemma table_with_sockets (m : mapping) f (s : state) :
  table m (with_sockets f s) = table m s.
Proof. by destruct m. Qed.

Lemma table_write (m m' : mapping) (key : string) (v : option string) (s : state) :
  table m (write m' key v s) =
  if decide (m = m') then <[key := v]> (table m s) else table m s.
Proof. destruct m, m'; reflexivity. Qed.

(** X3.  Whatever arrives on a realtime socket, the listener leaves the three
    tables, the timers and the sockets as they are, parks at most the one
    activation of [addHuman], and emits nothing but console lines, a
    rejection, sends on the socket the message came from, and a request for
    the human agent at the configured number. *)
Theorem message_listener_footprint (uri data : string) (s : state) :
  let s' := fst (exec (on_message uri data) s) in
  let out := snd (exec (on_message uri data) s) in
  (forall m, table m s' = table m s) /\
  timers s' = timers s /\
  sockets s' = sockets s /\
  (parked s' = parked s \/ parked s' = parked s ++ [addHuman_awaits_create]) /\
  Forall (listener_event uri) out.
Proof.
  cbv zeta. unfold exec.
  destruct (on_message_shape uri data s)
    as [(out & -> & Hout)|(id & c & name & from & token & _ & _ & _ & ->)];
    cbn [fst snd].
  - split; [reflexivity|]. split; [reflexivity|]. split; [reflexivity|].
    split; [by left|].
    eapply Forall_impl; [exact Hout|].
    intros e [He|[[x ->]|[m ->]]]; [by destruct e|exact I|reflexivity].
  - split; [intros m; apply table_with_parked|].
    split; [reflexivity|]. split; [reflexivity|]. split; [by right|].
    repeat (apply Forall_cons_2; [by cbn|]). apply Forall_nil_2.
Qed.


(** *** The accept webhook, further *)

Lemma find_conference_header_first
    (before after : list (option sip_header)) (header : sip_header) :
  Forall (fun h => exists x, h = Some x /\ header_name x <> Some "X-conferenceName")
         before ->
  header_name header = Some "X-conferenceName" ->
  find_conference_header (before ++ Some header :: after) = Normal (Some header).
Proof.
  intros Hbefore Hname. induction Hbefore as [|h before (x & -> & Hx) _ IH]; cbn.
  - by rewrite bool_decide_eq_true_2.
  - by rewrite bool_decide_eq_false_2.
Qed.

Lemma find_conference_header_null
    (before after : list (option sip_header)) :
  Forall (fun h => exists x, h = Some x /\ header_name x <> Some "X-conferenceName")
         before ->
  find_conference_header (before ++ None :: after) =
  Thrown (TypeError "Cannot read properties of null (reading 'name')").
Proof.
  intros Hbefore. induction Hbefore as [|h before (x & -> & Hx) _ IH]; cbn.
  - reflexivity.
  - by rewrite bool_decide_eq_false_2.
Qed.

(** X5.  Of the SIP headers of an incoming call the first one named
    [X-conferenceName] decides: its value is what is written for the call
    id, whatever follows it (further headers of that name, [null]
    elements); without any such header, or when [sip_headers] is no array,
    [undefined] is written. *)
Theorem first_conference_header_decides
    (event : webhook_event) (before after : list (option sip_header))
    (header : sip_header) (s : state) :
  event_type event = Some RealtimeIncomingCall ->
  Forall (fun h => exists x, h = Some x /\ header_name x <> Some "X-conferenceName")
         before ->
  header_name header = Some "X-conferenceName" ->
  let callId := template (event_data event ≫= call_id) in
  let s' := fst (exec (floating (post_root_unwrapped (inr event))) s) in
  (event_data event ≫= sip_headers = Some (before ++ Some header :: after) ->
   read callIDtoConferenceName callId s' = header_value header) /\
  (event_data event ≫= sip_headers = Some before \/
   event_data event ≫= sip_headers = None ->
   read callIDtoConferenceName callId s' = None /\
   is_Some (callIDtoConferenceNameMapping s' !! callId)).
Proof.
  intros Htype Hbefore Hname callId s'. subst s'. unfold exec.
  rewrite post_root_unwrapped_run, Htype, bool_decide_eq_true_2 by reflexivity.
  split.
  - intros ->. unfold scan_sip_headers.
    rewrite (find_conference_header_first before after header Hbefore Hname).
    cbn [fst mbind option_bind]. rewrite read_with_parked. apply read_write_same.
  - assert (Hnone : find_conference_header before = Normal None).
    { clear -Hbefore. induction Hbefore as [|h before (x & -> & Hx) _ IH]; cbn;
        [reflexivity | by rewrite bool_decide_eq_false_2]. }
    intros [-> | ->]; unfold scan_sip_headers; rewrite ?Hnone; cbn [fst mbind option_bind];
      (split; [rewrite read_with_parked; apply read_write_same|]);
      cbn; rewrite lookup_insert_eq; by eexists.
Qed.

(** X6.  A [null] among the SIP headers, before any header named
    [X-conferenceName], fails the webhook: the response is 500 [Server
    error], nothing is written to the table, no accept request is made, and
    the process state is as before. *)
Theorem null_sip_header_fails_the_webhook
    (rawBody : string) (headers : list (string * string)) (event : webhook_event)
    (before after : list (option sip_header)) (answers : list answer) (s : state) :
  event_type event = Some RealtimeIncomingCall ->
  event_data event ≫= sip_headers = Some (before ++ None :: after) ->
  Forall (fun h => exists x, h = Some x /\ header_name x <> Some "X-conferenceName")
         before ->
  handle (floating (post_root rawBody headers)) (unwrapped (inr event) :: answers) s =
  (s, [http_response (Response 500 None [] (Some "Server error"))]).
Proof.
  intros Htype Hheaders Hbefore.
  assert (Hscan : scan_sip_headers (event_data event ≫= sip_headers) =
                  Thrown (TypeError "Cannot read properties of null (reading 'name')")).
  { rewrite Hheaders. unfold scan_sip_headers.
    by rewrite (find_conference_header_null before after Hbefore). }
  rewrite handle_root_no_accept by (right; by eexists).
  by rewrite Htype, bool_decide_eq_true_2, Hscan.
Qed.

(** X7.  When the accept request itself fails, the webhook is answered 500
    [Server error], or 400 [Invalid signature] when the text of the failure
    contains these words, although the signature had been verified; the
    entry of the call id stays written, and no timer is set. *)
Theorem accept_request_failure
    (rawBody : string) (headers : list (string * string)) (event : webhook_event)
    (e : exn) (answers : list answer) (s : state) (foundConferenceName : option string) :
  event_type event = Some RealtimeIncomingCall ->
  scan_sip_headers (event_data event ≫= sip_headers) = Normal foundConferenceName ->
  let callId := template (event_data event ≫= call_id) in
  handle (floating (post_root rawBody headers))
         (unwrapped (inr event) :: fetched (inl e) :: answers) s =
  (write callIDtoConferenceName callId foundConferenceName s,
   [store_write callIDtoConferenceName callId foundConferenceName;
    fetch (acceptUrl callId) acceptInit;
    http_response
      (if is_invalid_signature e
       then Response 400 None [] (Some "Invalid signature")
       else Response 500 None [] (Some "Server error"))]).
Proof.
  intros Htype Hscan callId.
  rewrite (handle_root_accept rawBody headers event (inl e) answers s
             foundConferenceName Htype Hscan).
  unfold exec. rewrite post_root_fetched_run, post_root_catch_run. reflexivity.
Qed.

(** X8.  A realtime session is scheduled by the webhook exactly when the accept
    request was answered with success: then one timer of delay 0 for the
    address of the call is added; in every other case the timers are as
    before. *)
Theorem session_scheduled_only_when_accepted
    (rawBody : string) (headers : list (string * string)) (event : webhook_event)
    (r : exn + fetch_response) (answers : list answer) (s : state) :
  let s' :=
    fst (handle (floating (post_root rawBody headers))
                (unwrapped (inr event) :: fetched r :: answers) s) in
  let accepted :=
    bool_decide (event_type event = Some RealtimeIncomingCall) &&
    match scan_sip_headers (event_data event ≫= sip_headers), r with
    | Normal _, inr resp => resp_ok resp
    | _, _ => false
    end in
  timers s' =
  if accepted
  then timers s ++ [(wssUrl (template (event_data event ≫= call_id)), 0)]
  else timers s.
Proof.
  cbv zeta. case_bool_decide as Htype; cbn [andb].
  2:{ by rewrite handle_root_no_accept by (by left). }
  destruct (scan_sip_headers _) as [found|e] eqn:Hscan.
  2:{ by rewrite handle_root_no_accept by (right; by eexists). }
  rewrite (handle_root_accept rawBody headers event r answers s found Htype Hscan).
  cbn [fst]. unfold exec. rewrite post_root_fetched_run.
  destruct r as [e|resp]; [by rewrite post_root_catch_run|].
  by destruct (resp_ok resp).
Qed.

(** X9.  When the accept webhook of a realtime call found no conference name
    (no header, or a header with an empty value), a hand-off request on the
    socket of that call, right after, writes the line [Conference name is
    undefined] for the call id to the console, asks for no participant,
    changes nothing, and still sends the two engagement instructions. *)
Theorem handoff_after_accept_without_conference
    (event : webhook_event) (uri data : string) (response : json) (url : URL)
    (s : state) (callId : string) (foundConferenceName : option string) :
  event_type event = Some RealtimeIncomingCall ->
  event_data event ≫= call_id = Some callId ->
  scan_sip_headers (event_data event ≫= sip_headers) = Normal foundConferenceName ->
  foundConferenceName = None \/ foundConferenceName = Some EmptyString ->
  truthy_string callId = true ->
  URL_new uri = inr url ->
  searchParams_get url "call_id" = Some callId ->
  JSON_parse data = inr response ->
  handoff_trigger response = true ->
  let s1 := fst (exec (floating (post_root_unwrapped (inr event))) s) in
  on_message uri data s1 =
  (Normal tt, s1,
   [console error [LString "Conference name is undefined for call ID:"; LString callId];
    ws_send uri keepChatting;
    ws_send uri responseCreateEmpty]).
Proof.
  intros Htype Hid Hscan Hfound Hcall Hurl Hget Hparse Htrig s1.
  assert (Hread : read callIDtoConferenceName callId s1 = foundConferenceName).
  { subst s1. unfold exec.
    rewrite post_root_unwrapped_run, Htype, bool_decide_eq_true_2, Hscan, Hid
      by reflexivity.
    cbn [template fst]. rewrite read_with_parked. apply read_write_same. }
  rewrite (on_message_triggered uri data response s1 Hparse Htrig), Hurl, Hget.
  destruct callId as [|c0 r0]; [discriminate Hcall|].
  unfold exec, floating, try_catch. rewrite addHuman_run, Hread.
  by destruct Hfound as [-> | ->].
Qed.


(** *** One response per request *)

Lemma handle_root_first
    (rawBody : string) (headers : list (string * string)) (r : exn + webhook_event)
    (rest : list answer) (s : state) :
  handle (floating (post_root rawBody headers)) (unwrapped r :: rest) s =
  (fst (settle (length (parked s)) rest
          (fst (exec (floating (post_root_unwrapped r)) s))),
   snd (exec (floating (post_root_unwrapped r)) s) ++
   snd (settle (length (parked s)) rest
          (fst (exec (floating (post_root_unwrapped r)) s)))).
Proof.
  unfold handle, exec at 1, floating at 1, try_catch, post_root, park, update;
    cbn [fst snd].
  erewrite settle_last; [| reflexivity | | reflexivity];
    [| cbn [parked with_parked]; rewrite length_app; simpl; lia].
  by rewrite with_parked_restore.
Qed.

Lemma settle_after_fetch (rest : list answer) (s : state) (callId : string) :
  length (responses
            (snd (settle (length (parked s)) rest
                    (with_parked (fun l => l ++ [post_root_awaits_fetch callId]) s)))) <= 1.
Proof.
  destruct rest as [|ans rest]; [cbn; lia|].
  destruct (resume (post_root_awaits_fetch callId) ans) as [m|] eqn:Hres.
  2:{ erewrite settle_mismatch; [cbn; lia | reflexivity | exact Hres]. }
  destruct ans; try discriminate Hres. injection Hres as <-.
  erewrite settle_last; [| reflexivity | | reflexivity];
    [| cbn [parked with_parked]; rewrite length_app; simpl; lia].
  replace (with_parked _ (with_parked _ s)) with s by (by destruct s).
  unfold exec. rewrite post_root_fetched_run.
  destruct r as [e|resp]; [rewrite post_root_catch_run|destruct (resp_ok resp)];
    cbn [fst snd]; rewrite settle_floor by (cbn; lia); cbn; lia.
Qed.

(** X11.  No request is answered twice.  A run of the inbound-call handler sends
    exactly one response, and a run of the webhook handler at most one,
    whatever answers the providers give and however far the run gets. *)
Theorem requests_are_answered_at_most_once
    (rawBody : string) (headers : list (string * string))
    (answers : list answer) (s : state) :
  length (responses (snd (handle (post_incoming_call rawBody) answers s))) = 1 /\
  length (responses (snd (handle (floating (post_root rawBody headers)) answers s))) <= 1.
Proof.
  split.
  - unfold handle, exec. rewrite post_incoming_call_run. cbv zeta.
    set (s1 := write _ _ _ (write _ _ _ s)).
    assert (Hp : parked s1 = parked s) by reflexivity.
    destruct (settle _ _ _) as [s2 out2] eqn:Hsettle. cbn [snd].
    rewrite responses_app, length_app.
    change out2 with (snd (s2, out2)). rewrite <- Hsettle.
    destruct answers as [|ans rest]; [reflexivity|].
    destruct (resume createParticipant_awaits_create ans) as [m|] eqn:Hres.
    2:{ erewrite settle_mismatch; [reflexivity | reflexivity | exact Hres]. }
    destruct ans; try discriminate Hres. injection Hres as <-.
    erewrite settle_last; [| reflexivity | | reflexivity];
      [| cbn [parked with_parked]; rewrite length_app; simpl; lia].
    rewrite with_parked_restore.
    destruct r as [e|[]]; cbn [exec fst snd];
      rewrite settle_floor by (rewrite ?Hp; cbn; lia); reflexivity.
  - destruct answers as [|ans rest].
    { cbn. lia. }
    destruct (resume post_root_awaits_unwrap ans) as [m|] eqn:Hres.
    2:{ unfold handle, exec at 1, floating at 1, try_catch, post_root, park, update;
          cbn [fst snd].
        erewrite settle_mismatch; [cbn; lia | reflexivity | exact Hres]. }
    destruct ans; try discriminate Hres. clear Hres.
    rewrite handle_root_first. cbn [snd]. unfold exec.
    rewrite post_root_unwrapped_run.
    assert (Hcatch : forall e,
               length (responses
                         (snd (post_root_catch e s) ++
                          snd (settle (length (parked s)) rest
                                 (snd (fst (post_root_catch e s)))))) <= 1).
    { intros e. rewrite post_root_catch_run. cbn [fst snd].
      rewrite settle_floor by lia. cbn. lia. }
    destruct r as [e|event].
    { specialize (Hcatch e). by destruct (post_root_catch e s) as [[c s1] out1]. }
    case_bool_decide.
    2:{ cbn [fst snd]. rewrite settle_floor by lia. cbn. lia. }
    destruct (scan_sip_headers _) as [found|e].
    2:{ specialize (Hcatch e). by destruct (post_root_catch e s) as [[c s1] out1]. }
    cbv zeta. cbn [fst snd].
    rewrite responses_app, length_app.
    pose proof (settle_after_fetch rest
                  (write callIDtoConferenceName
                         (template (event_data event ≫= call_id)) found s)
                  (template (event_data event ≫= call_id))) as Hrest.
    cbn [parked write] in Hrest. cbn. lia.
Qed.

(** *** The conference watcher, with any number of virtual agents *)

Lemma next_virtual_agent_filter (participants : list participant) :
  match next_virtual_agent participants with
  | None => filter is_virtual_agent participants = []
  | Some (p, remaining) =>
      filter is_virtual_agent participants = p :: filter is_virtual_agent remaining
  end.
Proof.
  induction participants as [|p remaining IH]; [reflexivity|].
  rewrite filter_cons. cbn [next_virtual_agent].
  destruct (is_virtual_agent p) eqn:Hp.
  - by rewrite decide_True by (by apply Is_true_true).
  - by rewrite decide_False by (by apply Is_true_false).
Qed.

Lemma terminations_app (out1 out2 : list event) :
  terminations (out1 ++ out2) = terminations out1 ++ terminations out2.
Proof. apply omap_app. Qed.

Lemma settle_update (rest : list answer) (r : exn + unit)
    (remaining : list participant) (s : state) :
  settle (length (parked s)) (updated r :: rest)
         (with_parked (fun l => l ++ [findVirtualAgentandDisconnect_awaits_update remaining]) s) =
  (fst (settle (length (parked s)) rest
          (fst (exec (floating (findVirtualAgentandDisconnect_updated remaining r)) s))),
   snd (exec (floating (findVirtualAgentandDisconnect_updated remaining r)) s) ++
   snd (settle (length (parked s)) rest
          (fst (exec (floating (findVirtualAgentandDisconnect_updated remaining r)) s)))).
Proof.
  erewrite settle_last; [| reflexivity | | reflexivity];
    [| cbn [parked with_parked]; rewrite length_app; simpl; lia].
  by rewrite with_parked_restore.
Qed.

Lemma settle_all_updates (remaining : list participant) (s : state) :
  let run :=
    settle (length (parked s))
           (updated (inr tt) ::
            map (fun _ => updated (inr tt)) (filter is_virtual_agent remaining))
           (with_parked
              (fun l => l ++ [findVirtualAgentandDisconnect_awaits_update remaining]) s) in
  fst run = s /\
  terminations (snd run) =
  map (fun p => (participant_callSid p, "completed"))
      (filter is_virtual_agent remaining).
Proof.
  cbv zeta. induction remaining as [|p remaining IH].
  - rewrite settle_update. unfold exec.
    rewrite findVirtualAgentandDisconnect_updated_run. by cbn.
  - rewrite settle_update. unfold exec.
    rewrite findVirtualAgentandDisconnect_updated_run.
    rewrite filter_cons. cbn [next_virtual_agent].
    destruct (is_virtual_agent p) eqn:Hp.
    + rewrite decide_True by (by apply Is_true_true). cbn [fst snd map].
      destruct IH as [IHs IHt]. split; [exact IHs|].
      rewrite terminations_app, IHt. reflexivity.
    + rewrite decide_False by (by apply Is_true_false).
      rewrite settle_update in IH. unfold exec in IH.
      rewrite findVirtualAgentandDisconnect_updated_run in IH. exact IH.
Qed.

Lemma handle_conference_events_listed
    (rawBody : string) (r : exn + list participant) (rest : list answer) (s : state) :
  let parsedBody := Object_fromEntries (URLSearchParams rawBody) in
  parsedBody !! "ParticipantLabel" = Some "human agent" ->
  parsedBody !! "StatusCallbackEvent" = Some "participant-join" ->
  handle (post_conference_events rawBody) (listed r :: rest) s =
  (fst (settle (length (parked s)) rest
          (fst (exec (floating (findVirtualAgentandDisconnect_listed r)) s))),
   participants_list (parsedBody !! "ConferenceSid") 20 ::
   snd (exec (floating (findVirtualAgentandDisconnect_listed r)) s) ++
   snd (settle (length (parked s)) rest
          (fst (exec (floating (findVirtualAgentandDisconnect_listed r)) s)))).
Proof.
  intros parsedBody Hlabel Hevent. unfold handle, exec at 1.
  rewrite post_conference_events_run; cbv zeta; fold parsedBody.
  rewrite Hlabel, Hevent, !bool_decide_eq_true_2 by reflexivity. cbn [andb].
  erewrite settle_last; [| reflexivity | | reflexivity];
    [| cbn [parked with_parked]; rewrite length_app; simpl; lia].
  by rewrite with_parked_restore.
Qed.

(** X12.  With any number of participants labelled [virtual agent] in the list,
    and every termination request answered with success, the watcher ends
    them all: one request with status [completed] for each, in the order of
    the list, and none for any other participant; afterwards nothing of the
    run is left parked. *)
Theorem all_listed_virtual_agents_are_ended
    (rawBody : string) (participants : list participant) (s : state) :
  let parsedBody := Object_fromEntries (URLSearchParams rawBody) in
  parsedBody !! "ParticipantLabel" = Some "human agent" ->
  parsedBody !! "StatusCallbackEvent" = Some "participant-join" ->
  let run :=
    handle (post_conference_events rawBody)
           (listed (inr participants) ::
            map (fun _ => updated (inr tt)) (filter is_virtual_agent participants)) s in
  fst run = s /\
  terminations (snd run) =
  map (fun p => (participant_callSid p, "completed"))
      (filter is_virtual_agent participants).
Proof.
  intros parsedBody Hlabel Hevent. cbv zeta.
  rewrite (handle_conference_events_listed rawBody _ _ s Hlabel Hevent).
  unfold exec. rewrite findVirtualAgentandDisconnect_listed_run.
  pose proof (next_virtual_agent_filter participants) as Hnext.
  destruct (next_virtual_agent participants) as [[p remaining]|].
  - rewrite Hnext. cbn [fst snd map].
    destruct (settle_all_updates remaining s) as [Hs Ht].
    split; [exact Hs|].
    rewrite app_comm_cons, terminations_app, Ht. reflexivity.
  - rewrite Hnext. by cbn.
Qed.

(** X13.  A failure stops the watcher.  When the list request fails nothing is
    terminated; when a termination request fails, the virtual agents listed
    after that one are left in the conference: the only termination request
    of the run is the failed one.  Either way the failure rejects a promise
    that nobody holds and the run is over. *)
Theorem watcher_stops_at_first_failure
    (rawBody : string) (participants : list participant) (e : exn)
    (rest : list answer) (s : state) :
  let parsedBody := Object_fromEntries (URLSearchParams rawBody) in
  parsedBody !! "ParticipantLabel" = Some "human agent" ->
  parsedBody !! "StatusCallbackEvent" = Some "participant-join" ->
  handle (post_conference_events rawBody) (listed (inl e) :: rest) s =
    (s, [participants_list (parsedBody !! "ConferenceSid") 20; unhandledRejection e]) /\
  (let run :=
     handle (post_conference_events rawBody)
            (listed (inr participants) :: updated (inl e) :: rest) s in
   fst run = s /\
   terminations (snd run) =
   map (fun p => (participant_callSid p, "completed"))
       (take 1 (filter is_virtual_agent participants))).
Proof.
  intros parsedBody Hlabel Hevent. split.
  - rewrite (handle_conference_events_listed rawBody _ _ s Hlabel Hevent).
    unfold exec. rewrite findVirtualAgentandDisconnect_listed_run. cbn [fst snd].
    by rewrite settle_floor by lia.
  - cbv zeta.
    rewrite (handle_conference_events_listed rawBody _ _ s Hlabel Hevent).
    unfold exec. rewrite findVirtualAgentandDisconnect_listed_run.
    pose proof (next_virtual_agent_filter participants) as Hnext.
    destruct (next_virtual_agent participants) as [[p remaining]|].
    + rewrite Hnext. cbn [fst snd take map].
      rewrite settle_update. unfold exec.
      rewrite findVirtualAgentandDisconnect_updated_run. cbn [fst snd].
      by rewrite settle_floor by lia.
    + rewrite Hnext. cbn [fst snd]. by rewrite settle_floor by lia.
Qed.

(** ** The books of the process *)

Lemma justified_mono (tr out : list event) (j : nat) (e : event) :
  justified tr j e -> justified (tr ++ out) j e.
Proof.
  destruct e; cbn; try done.
  - intros [(i1 & i2 & H1 & H2 & Hw1 & Hw2) Hlabel]. split.
    + exists i1, i2. repeat split; try done; by apply lookup_app_l_Some.
    + destruct Hlabel as [Hva|(Hha & callId & i3 & H3 & Hw3)]; [by left|].
      right. split; [exact Hha|]. exists callId, i3.
      split; [exact H3 | by apply lookup_app_l_Some].
  - intros (-> & i & conference & Hi & Hl). split; [reflexivity|].
    exists i, conference. split; [exact Hi | by apply lookup_app_l_Some].
  - intros (-> & callId & i & Hi & -> & Hf). split; [reflexivity|].
    exists callId, i. repeat split; try done. by apply lookup_app_l_Some.
  - intros (i & Hi & Ht). exists i. split; [exact Hi | by apply lookup_app_l_Some].
  - intros (i & h & Hi & Hw). exists i, h. split; [exact Hi | by apply lookup_app_l_Some].
Qed.

(** One turn keeps the books when what it adds is accounted for. *)
Lemma ledger_step (tr out : list event) (s s' : state) :
  ledger tr s ->
  (forall m k v, table m s' !! k = Some v ->
                 table m s !! k = Some v \/
                 exists i, out !! i = Some (store_write m k v)) ->
  (forall m k, is_Some (table m s !! k) -> is_Some (table m s' !! k)) ->
  (forall m k v i, out !! i = Some (store_write m k v) -> is_Some (table m s' !! k)) ->
  dom (ConferenceNametoCallerIDMapping s') = dom (ConferenceNametoCallTokenMapping s') ->
  (forall uri, uri ∈ sockets s' ->
               uri ∈ sockets s \/
               exists i headers, out !! i = Some (WebSocket_new uri headers)) ->
  (forall uri delay, (uri, delay) ∈ timers s' ->
                     (uri, delay) ∈ timers s \/
                     (delay = 0 /\ exists i, out !! i = Some (setTimeout uri 0))) ->
  (forall callId, post_root_awaits_fetch callId ∈ parked s' ->
                  post_root_awaits_fetch callId ∈ parked s \/
                  exists i, out !! i = Some (fetch (acceptUrl callId) acceptInit)) ->
  (forall a, a ∈ parked s' -> watcher_activation a ->
             a ∈ parked s \/
             exists i conference, (tr ++ out) !! i = Some (participants_list conference 20)) ->
  (forall j e, out !! j = Some e -> justified (tr ++ out) (length tr + j) e) ->
  ledger (tr ++ out) s'.
Proof.
  intros (L1 & L2 & L3 & L4 & L5 & L6 & L7 & L8) T1 T2 T3 T4 S Tm P1 P2 J.
  assert (Hnew : forall (e : event) i, out !! i = Some e ->
                                       (tr ++ out) !! (length tr + i) = Some e).
  { intros e i Hi. rewrite lookup_app_r by lia.
    by replace (length tr + i - length tr) with i by lia. }
  split; [|split; [|split; [exact T4|split; [|split; [|split; [|split]]]]]].
  - intros m k v Hv. destruct (T1 m k v Hv) as [Hold|[i Hi]].
    + destruct (L1 m k v Hold) as [i Hi]. exists i. by apply lookup_app_l_Some.
    + eexists. by apply Hnew.
  - intros m k v i Hi. destruct (decide (i < length tr)) as [Hlt|Hge].
    + rewrite lookup_app_l in Hi by exact Hlt. apply T2. by eapply L2.
    + rewrite lookup_app_r in Hi by lia. by eapply T3.
  - intros uri Hin. destruct (S uri Hin) as [Hold|(i & h & Hi)].
    + destruct (L4 uri Hold) as (i & h & Hi). exists i, h. by apply lookup_app_l_Some.
    + eexists _, h. by apply Hnew.
  - intros uri delay Hin. destruct (Tm uri delay Hin) as [Hold|(-> & i & Hi)].
    + destruct (L5 uri delay Hold) as (-> & i & Hi). split; [reflexivity|].
      exists i. by apply lookup_app_l_Some.
    + split; [reflexivity|]. eexists. by apply Hnew.
  - intros callId Hin. destruct (P1 callId Hin) as [Hold|(i & Hi)].
    + destruct (L6 callId Hold) as (i & Hi). exists i. by apply lookup_app_l_Some.
    + eexists. by apply Hnew.
  - intros a Hin Hw. destruct (P2 a Hin Hw) as [Hold|Hnew'].
    + destruct (L7 a Hold Hw) as (i & conference & Hi).
      exists i, conference. by apply lookup_app_l_Some.
    + exact Hnew'.
  - intros j e Hj. destruct (decide (j < length tr)) as [Hlt|Hge].
    + rewrite lookup_app_l in Hj by exact Hlt. apply justified_mono. by apply L8.
    + rewrite lookup_app_r in Hj by lia.
      replace j with (length tr + (j - length tr)) by lia. by apply J.
Qed.

(** A turn that leaves tables, timers and sockets alone and parks
    [extra]. *)
Lemma ledger_park (tr out : list event) (s s' : state) (extra : list activation) :
  ledger tr s ->
  (forall m, table m s' = table m s) ->
  timers s' = timers s ->
  sockets s' = sockets s ->
  parked s' = parked s ++ extra ->
  (forall m k v i, out !! i <> Some (store_write m k v)) ->
  Forall (fun a =>
            (forall callId, a <> post_root_awaits_fetch callId) /\
            (watcher_activation a ->
             exists i conference,
               (tr ++ out) !! i = Some (participants_list conference 20))) extra ->
  (forall j e, out !! j = Some e -> justified (tr ++ out) (length tr + j) e) ->
  ledger (tr ++ out) s'.
Proof.
  intros Hledger Htables Htimers Hsockets Hparked Hwrites Hextra J.
  apply (ledger_step tr out s s' Hledger); try done.
  - intros m k v Hv. left. by rewrite <- Htables.
  - intros m k. by rewrite Htables.
  - intros m k v i Hi. by destruct (Hwrites m k v i).
  - pose proof (Htables ConferenceNametoCallerID) as H1.
    pose proof (Htables ConferenceNametoCallToken) as H2. cbn in H1, H2.
    rewrite H1, H2. by destruct Hledger as (_ & _ & L3 & _).
  - intros uri Hin. left. by rewrite <- Hsockets.
  - intros uri delay Hin. left. by rewrite <- Htimers.
  - intros callId Hin. rewrite Hparked in Hin.
    apply elem_of_app in Hin as [Hin|Hin]; [by left|].
    rewrite Forall_forall in Hextra. destruct (Hextra _ Hin) as [Hne _].
    by destruct (Hne callId).
  - intros a Hin Hw. rewrite Hparked in Hin.
    apply elem_of_app in Hin as [Hin|Hin]; [by left|].
    rewrite Forall_forall in Hextra. destruct (Hextra _ Hin) as [_ Hlist].
    right. by apply Hlist.
Qed.

Lemma app_nil_parked (s : state) : parked s = parked s ++ [].
Proof. by rewrite app_nil_r. Qed.

(** Taking timers, sockets or parked activations away keeps the books. *)
Lemma ledger_trimmed (tr : list event) (s0 s : state) :
  ledger tr s ->
  (forall m, table m s0 = table m s) ->
  timers s0 ⊆ timers s -> sockets s0 ⊆ sockets s -> parked s0 ⊆ parked s ->
  ledger tr s0.
Proof.
  intros Hledger Htables Htimers Hsockets Hparked.
  rewrite <- (app_nil_r tr). apply (ledger_step tr [] s s0 Hledger).
  - intros m k v Hv. left. by rewrite <- Htables.
  - intros m k. by rewrite Htables.
  - intros m k v i Hi. by rewrite lookup_nil in Hi.
  - pose proof (Htables ConferenceNametoCallerID) as H1.
    pose proof (Htables ConferenceNametoCallToken) as H2. cbn in H1, H2.
    rewrite H1, H2. by destruct Hledger as (_ & _ & L3 & _).
  - intros uri Hin. left. by apply Hsockets.
  - intros uri delay Hin. left. by apply Htimers.
  - intros callId Hin. left. by apply Hparked.
  - intros a Hin Hw. left. by apply Hparked.
  - intros j e Hj. by rewrite lookup_nil in Hj.
Qed.

(** The last events of a trace, by position. *)
Lemma lookup_new (tr out : list event) (i : nat) (e : event) :
  out !! i = Some e -> (tr ++ out) !! (length tr + i) = Some e.
Proof.
  intros Hi. rewrite lookup_app_r by lia.
  by replace (length tr + i - length tr) with i by lia.
Qed.

Lemma ledger_post_incoming_call (tr : list event) (s : state) (rawBody : string) :
  ledger tr s ->
  ledger (tr ++ snd (exec (post_incoming_call rawBody) s))
         (fst (exec (post_incoming_call rawBody) s)).
Proof.
  intros Hledger. unfold exec. rewrite post_incoming_call_run. cbv zeta. cbn [fst snd].
  set (parsedBody := Object_fromEntries (URLSearchParams rawBody)).
  set (conferenceName := template (parsedBody !! "CallSid")).
  apply (ledger_step tr _ s _ Hledger).
  - intros m k v. rewrite table_with_parked.
    destruct m; tables.
    + by left.
    + destruct (decide (conferenceName = k)) as [<-|Hne].
      * rewrite lookup_insert_eq. intros [= <-]. right. by exists 0.
      * rewrite lookup_insert_ne by done. by left.
    + destruct (decide (conferenceName = k)) as [<-|Hne].
      * rewrite lookup_insert_eq. intros [= <-]. right. by exists 1.
      * rewrite lookup_insert_ne by done. by left.
  - intros m k Hk. rewrite table_with_parked.
    destruct m; tables; [exact Hk| |];
      (destruct (decide (conferenceName = k)) as [<-|Hne];
       [rewrite lookup_insert_eq; by eexists | by rewrite lookup_insert_ne]).
  - intros m k v [|[|[|[|i]]]] Hi; cbn in Hi; simplify_eq;
      rewrite table_with_parked; tables;
      rewrite lookup_insert_eq; by eexists.
  - tables. rewrite !dom_insert_L. by destruct Hledger as (_ & _ & -> & _).
  - intros uri Hin. by left.
  - intros uri delay Hin. by left.
  - intros callId Hin. cbn in Hin. apply elem_of_app in Hin as [Hin|Hin]; [by left|].
    apply list_elem_of_singleton in Hin. discriminate.
  - intros a Hin Hw. cbn in Hin. apply elem_of_app in Hin as [Hin|Hin]; [by left|].
    apply list_elem_of_singleton in Hin. subst a. contradiction.
  - intros [|[|[|[|j]]]] e Hj; cbn in Hj; simplify_eq; cbn; try done.
    split; [|by left].
    exists (length tr + 0), (length tr + 1).
    repeat split; try lia; by apply lookup_new.
Qed.

Lemma ledger_post_conference_events (tr : list event) (s : state) (rawBody : string) :
  ledger tr s ->
  ledger (tr ++ snd (exec (post_conference_events rawBody) s))
         (fst (exec (post_conference_events rawBody) s)).
Proof.
  intros Hledger. unfold exec. rewrite post_conference_events_run. cbv zeta.
  destruct (_ && _); cbn [fst snd].
  - apply (ledger_park tr _ s _ [findVirtualAgentandDisconnect_awaits_list] Hledger);
      try reflexivity; [no_writes | |].
    + apply Forall_cons_2; [|apply Forall_nil_2]. split; [done|].
      intros _. eexists (length tr + 0), _. by apply lookup_new.
    + intros [|[|j]] e Hj; cbn in Hj; by simplify_eq.
  - apply (ledger_park tr _ s _ [] Hledger);
      try reflexivity; [apply app_nil_parked | no_writes | apply Forall_nil_2 |].
    intros j e Hj. by rewrite lookup_nil in Hj.
Qed.

Lemma ledger_silent (tr out : list event) (s : state) :
  ledger tr s ->
  Forall (fun e => match e with
                   | http_response _ | console _ _ | unhandledRejection _ => True
                   | _ => False
                   end) out ->
  ledger (tr ++ out) s.
Proof.
  intros Hledger Hout.
  apply (ledger_park tr _ s _ [] Hledger);
    try reflexivity; [apply app_nil_parked | | apply Forall_nil_2 |].
  - intros m k v i Hi. rewrite Forall_forall in Hout.
    by apply (Hout _ (list_elem_of_lookup_2 _ _ _ Hi)).
  - intros j e Hj. rewrite Forall_forall in Hout.
    pose proof (Hout _ (list_elem_of_lookup_2 _ _ _ Hj)) as He.
    by destruct e.
Qed.

Lemma ledger_post_root_catch (tr : list event) (s : state) (e : exn) :
  ledger tr s ->
  ledger (tr ++ snd (post_root_catch e s)) (snd (fst (post_root_catch e s))).
Proof.
  intros Hledger. rewrite post_root_catch_run. cbn [fst snd].
  apply ledger_silent; [exact Hledger|]. by apply Forall_cons_2; [|apply Forall_nil_2].
Qed.

Lemma ledger_watcher_listed
    (tr : list event) (s : state) (r : exn + list participant) :
  ledger tr s ->
  (exists i conference, tr !! i = Some (participants_list conference 20)) ->
  ledger (tr ++ snd (exec (floating (findVirtualAgentandDisconnect_listed r)) s))
         (fst (exec (floating (findVirtualAgentandDisconnect_listed r)) s)).
Proof.
  intros Hledger (i & conference & Hlist). unfold exec.
  rewrite findVirtualAgentandDisconnect_listed_run.
  destruct r as [e|participants]; cbn [fst snd].
  { apply ledger_silent; [exact Hledger|]. by apply Forall_cons_2; [|apply Forall_nil_2]. }
  destruct (next_virtual_agent participants) as [[p remaining]|]; cbn [fst snd].
  - apply (ledger_park tr _ s _ [findVirtualAgentandDisconnect_awaits_update remaining]
             Hledger);
      try reflexivity; [no_writes | |].
    + apply Forall_cons_2; [|apply Forall_nil_2]. split; [done|].
      intros _. exists i, conference. by apply lookup_app_l_Some.
    + intros [|[|j]] e Hj; cbn in Hj; simplify_eq. cbn. split; [reflexivity|].
      exists i, conference. split; [apply lookup_lt_Some in Hlist; lia|].
      by apply lookup_app_l_Some.
  - apply ledger_silent; [exact Hledger | apply Forall_nil_2].
Qed.

Lemma ledger_watcher_updated
    (tr : list event) (s : state) (remaining : list participant) (r : exn + unit) :
  ledger tr s ->
  (exists i conference, tr !! i = Some (participants_list conference 20)) ->
  ledger (tr ++ snd (exec (floating (findVirtualAgentandDisconnect_updated remaining r)) s))
         (fst (exec (floating (findVirtualAgentandDisconnect_updated remaining r)) s)).
Proof.
  intros Hledger (i & conference & Hlist). unfold exec.
  rewrite findVirtualAgentandDisconnect_updated_run.
  destruct r as [e|[]]; cbn [fst snd].
  { apply ledger_silent; [exact Hledger|]. by apply Forall_cons_2; [|apply Forall_nil_2]. }
  destruct (next_virtual_agent remaining) as [[p remaining']|]; cbn [fst snd].
  - apply (ledger_park tr _ s _ [findVirtualAgentandDisconnect_awaits_update remaining']
             Hledger);
      try reflexivity; [no_writes | |].
    + apply Forall_cons_2; [|apply Forall_nil_2]. split; [done|].
      intros _. exists i, conference. by apply lookup_app_l_Some.
    + intros [|[|[|j]]] e Hj; cbn in Hj; simplify_eq; cbn; [done|].
      split; [reflexivity|].
      exists i, conference. split; [apply lookup_lt_Some in Hlist; lia|].
      by apply lookup_app_l_Some.
  - apply ledger_silent; [exact Hledger|]. by apply Forall_cons_2; [|apply Forall_nil_2].
Qed.

Lemma ledger_unwrapped (tr : list event) (s : state) (r : exn + webhook_event) :
  ledger tr s ->
  ledger (tr ++ snd (exec (floating (post_root_unwrapped r)) s))
         (fst (exec (floating (post_root_unwrapped r)) s)).
Proof.
  intros Hledger. unfold exec. rewrite post_root_unwrapped_run.
  destruct r as [e|event].
  { pose proof (ledger_post_root_catch tr s e Hledger) as Hc.
    by destruct (post_root_catch e s) as [[c s1] out1]. }
  case_bool_decide.
  2:{ cbn [fst snd]. apply ledger_silent; [exact Hledger|].
      by apply Forall_cons_2; [|apply Forall_nil_2]. }
  destruct (scan_sip_headers _) as [found|e].
  2:{ pose proof (ledger_post_root_catch tr s e Hledger) as Hc.
      by destruct (post_root_catch e s) as [[c s1] out1]. }
  cbv zeta. set (callId := template (event_data event ≫= call_id)). cbn [fst snd].
  apply (ledger_step tr _ s _ Hledger).
  - intros m k v. rewrite table_with_parked. destruct m; tables; [|by left|by left].
    destruct (decide (callId = k)) as [<-|Hne].
    + rewrite lookup_insert_eq. intros [= <-]. right. by exists 0.
    + rewrite lookup_insert_ne by done. by left.
  - intros m k Hk. rewrite table_with_parked. destruct m; tables; try exact Hk.
    destruct (decide (callId = k)) as [<-|Hne];
      [rewrite lookup_insert_eq; by eexists | by rewrite lookup_insert_ne].
  - intros m k v [|[|[|i]]] Hi; cbn in Hi; simplify_eq.
    rewrite table_with_parked; tables. rewrite lookup_insert_eq; by eexists.
  - tables. by destruct Hledger as (_ & _ & L3 & _).
  - intros uri Hin. by left.
  - intros uri delay Hin. by left.
  - intros c Hin. cbn in Hin. apply elem_of_app in Hin as [Hin|Hin]; [by left|].
    apply list_elem_of_singleton in Hin. injection Hin as ->. right. by exists 1.
  - intros a Hin Hw. cbn in Hin. apply elem_of_app in Hin as [Hin|Hin]; [by left|].
    apply list_elem_of_singleton in Hin. subst a. contradiction.
  - intros [|[|[|j]]] e Hj; cbn in Hj; by simplify_eq.
Qed.

Lemma ledger_fetched
    (tr : list event) (s : state) (callId : string) (r : exn + fetch_response) :
  ledger tr s ->
  (exists i, tr !! i = Some (fetch (acceptUrl callId) acceptInit)) ->
  ledger (tr ++ snd (exec (floating (post_root_fetched callId r)) s))
         (fst (exec (floating (post_root_fetched callId r)) s)).
Proof.
  intros Hledger (i & Hfetch). unfold exec. rewrite post_root_fetched_run.
  destruct r as [e|resp].
  { pose proof (ledger_post_root_catch tr s e Hledger) as Hc.
    by destruct (post_root_catch e s) as [[c s1] out1]. }
  destruct (resp_ok resp); cbn [fst snd].
  2:{ apply ledger_silent; [exact Hledger|].
      by repeat (apply Forall_cons_2; [done|]); apply Forall_nil_2. }
  apply (ledger_step tr _ s _ Hledger).
  - intros m k v Hv. by left.
  - by intros m k Hk.
  - no_writes.
  - by destruct Hledger as (_ & _ & L3 & _).
  - intros uri Hin. by left.
  - intros uri delay Hin. cbn in Hin. apply elem_of_app in Hin as [Hin|Hin]; [by left|].
    apply list_elem_of_singleton in Hin. injection Hin as -> ->. right.
    split; [reflexivity | by exists 0].
  - intros c Hin. by left.
  - intros a Hin Hw. by left.
  - intros [|[|[|j]]] e Hj; cbn in Hj; simplify_eq; cbn; [|done].
    split; [reflexivity|]. exists callId, i.
    split; [apply lookup_lt_Some in Hfetch; lia|].
    split; [reflexivity | by apply lookup_app_l_Some].
Qed.

Lemma ledger_timer (tr : list event) (s : state) (uri : string) :
  ledger tr s ->
  (exists i, tr !! i = Some (setTimeout uri 0)) ->
  ledger (tr ++ snd (exec (floating (websocketTask uri)) s))
         (fst (exec (floating (websocketTask uri)) s)).
Proof.
  intros Hledger (i & Hset). unfold exec, floating, try_catch, websocketTask.
  destruct (URL_new uri) as [e|url]; cbn.
  { apply ledger_silent; [exact Hledger|]. by apply Forall_cons_2; [|apply Forall_nil_2]. }
  apply (ledger_step tr _ s _ Hledger).
  - intros m k v Hv. by left.
  - by intros m k Hk.
  - no_writes.
  - by destruct Hledger as (_ & _ & L3 & _).
  - intros u Hin. cbn in Hin. apply elem_of_app in Hin as [Hin|Hin]; [by left|].
    apply list_elem_of_singleton in Hin. subst u. right. by eexists 0, _.
  - intros u delay Hin. by left.
  - intros c Hin. by left.
  - intros a Hin Hw. by left.
  - intros [|[|j]] e' Hj; cbn in Hj; simplify_eq. cbn.
    exists i. split; [apply lookup_lt_Some in Hset; lia | by apply lookup_app_l_Some].
Qed.

Lemma read_stored (m : mapping) (key v : string) (s : state) :
  read m key s = Some v -> table m s !! key = Some (Some v).
Proof.
  unfold read. by destruct (table m s !! key) as [[w|]|]; intros [= ->].
Qed.

Lemma ledger_on_open (tr : list event) (s : state) (uri : string) :
  ledger tr s ->
  uri ∈ sockets s ->
  ledger (tr ++ snd (exec (on_open uri) s)) (fst (exec (on_open uri) s)).
Proof.
  intros Hledger Hin. cbn.
  apply (ledger_park tr _ s _ [] Hledger);
    try reflexivity; [apply app_nil_parked | no_writes | apply Forall_nil_2 |].
  intros [|[|[|j]]] e Hj; cbn in Hj; simplify_eq; cbn; [done|].
  destruct Hledger as (_ & _ & _ & L4 & _). destruct (L4 uri Hin) as (i & h & Hi).
  exists i, h. split; [apply lookup_lt_Some in Hi; lia | by apply lookup_app_l_Some].
Qed.

Lemma ledger_on_message (tr : list event) (s : state) (uri data : string) :
  ledger tr s ->
  uri ∈ sockets s ->
  ledger (tr ++ snd (exec (on_message uri data) s)) (fst (exec (on_message uri data) s)).
Proof.
  intros Hledger Hin. unfold exec.
  pose proof Hledger as (L1 & _ & _ & L4 & _).
  destruct (L4 uri Hin) as (io & h & Hopened).
  destruct (on_message_shape uri data s)
    as [(out & -> & Hout)|(id & c & name & from & token & Hname & Hfrom & Htoken & ->)];
    cbn [fst snd].
  - apply (ledger_park tr _ s _ [] Hledger);
      try reflexivity; [apply app_nil_parked | | apply Forall_nil_2 |].
    + intros m k v i Hi. rewrite Forall_forall in Hout.
      destruct (Hout _ (list_elem_of_lookup_2 _ _ _ Hi)) as [He|[[x He]|[x He]]];
        by simplify_eq.
    + intros j e Hj. rewrite Forall_forall in Hout.
      destruct (Hout _ (list_elem_of_lookup_2 _ _ _ Hj)) as [He|[[x ->]|[x ->]]];
        [by destruct e | done |].
      cbn. exists io, h.
      split; [apply lookup_lt_Some in Hopened; lia | by apply lookup_app_l_Some].
  - apply (ledger_park tr _ s _ [addHuman_awaits_create] Hledger);
      try reflexivity; [no_writes | |].
    + apply Forall_cons_2; [|apply Forall_nil_2]. split; [done|]. contradiction.
    + destruct (L1 _ _ _ (read_stored _ _ _ _ Hname)) as (i3 & H3).
      destruct (L1 _ _ _ (read_stored _ _ _ _ Hfrom)) as (i1 & H1).
      destruct (L1 _ _ _ (read_stored _ _ _ _ Htoken)) as (i2 & H2).
      intros [|[|[|[|[|j]]]]] e Hj; cbn in Hj; simplify_eq; cbn; try done.
      * split.
        -- exists i1, i2.
           split; [apply lookup_lt_Some in H1; lia|].
           split; [apply lookup_lt_Some in H2; lia|].
           split; by apply lookup_app_l_Some.
        -- right. split; [reflexivity|]. exists id, i3.
           split; [apply lookup_lt_Some in H3; lia | by apply lookup_app_l_Some].
      * exists io, h.
        split; [apply lookup_lt_Some in Hopened; lia | by apply lookup_app_l_Some].
      * exists io, h.
        split; [apply lookup_lt_Some in Hopened; lia | by apply lookup_app_l_Some].
Qed.

(** Every turn keeps the books. *)
Lemma ledger_turn (tr out : list event) (s s' : state) :
  ledger tr s -> turn s out s' -> ledger (tr ++ out) s'.
Proof.
  intros Hledger Hturn. destruct Hturn.
  - by apply ledger_post_incoming_call.
  - by apply ledger_post_conference_events.
  - cbn. apply ledger_silent; [exact Hledger|].
    by apply Forall_cons_2; [|apply Forall_nil_2].
  - cbn. apply (ledger_park tr _ s _ [post_root_awaits_unwrap] Hledger);
      try reflexivity; [no_writes | |].
    + apply Forall_cons_2; [|apply Forall_nil_2]. split; [done|]. contradiction.
    + intros j e Hj. by rewrite lookup_nil in Hj.
  - assert (Hledger0 : ledger tr (with_parked (delete i) s)).
    { apply (ledger_trimmed tr _ s Hledger); [reflexivity|..];
        intros x Hx; cbn in Hx; first [exact Hx | by eapply list_elem_of_delete_inv]. }
    pose proof (list_elem_of_lookup_2 _ _ _ H) as Hin.
    destruct Hledger as (_ & _ & _ & _ & _ & L6 & L7 & _).
    destruct a, ans; try discriminate; injection H0 as <-.
    + destruct r as [e|[]]; cbn;
        (apply ledger_silent; [exact Hledger0|]);
        [by apply Forall_cons_2; [|apply Forall_nil_2] | apply Forall_nil_2].
    + apply ledger_watcher_listed; [exact Hledger0|]. by apply (L7 _ Hin).
    + apply ledger_watcher_updated; [exact Hledger0|]. by apply (L7 _ Hin).
    + destruct r as [e|[]]; cbn;
        (apply ledger_silent; [exact Hledger0|]);
        [by apply Forall_cons_2; [|apply Forall_nil_2] | apply Forall_nil_2].
    + by apply ledger_unwrapped.
    + apply ledger_fetched; [exact Hledger0|]. by apply L6.
  - assert (Hledger0 : ledger tr (with_timers (delete i) s)).
    { apply (ledger_trimmed tr _ s Hledger); [reflexivity|..];
        intros x Hx; cbn in Hx; first [exact Hx | by eapply list_elem_of_delete_inv]. }
    apply ledger_timer; [exact Hledger0|].
    destruct Hledger as (_ & _ & _ & _ & L5 & _).
    destruct (L5 uri delay (list_elem_of_lookup_2 _ _ _ H)) as [-> Hset]. exact Hset.
  - by apply ledger_on_open.
  - by apply ledger_on_message.
  - cbn. apply ledger_silent; [exact Hledger|].
    by apply Forall_cons_2; [|apply Forall_nil_2].
  - assert (Hledger0 : ledger tr (with_sockets (delete i) s)).
    { apply (ledger_trimmed tr _ s Hledger); [reflexivity|..];
        intros x Hx; cbn in Hx; first [exact Hx | by eapply list_elem_of_delete_inv]. }
    cbn. apply ledger_silent; [exact Hledger0|].
    by apply Forall_cons_2; [|apply Forall_nil_2].
Qed.

Lemma reachable_ledger (tr : list event) (s : state) :
  reachable tr s -> ledger tr s.
Proof.
  induction 1 as [|tr s out s' _ IH Hturn]; [|by eapply ledger_turn].
  repeat split; cbn; intros; try by apply elem_of_nil in H.
  - destruct m; cbn in H; by rewrite lookup_empty in H.
  - by rewrite lookup_nil in H.
  - by rewrite lookup_nil in H.
Qed.


(** X15.  In every run of the server, the table of caller numbers and the table
    of call tokens have the same keys: a conference name has a caller entry
    exactly when it has a token entry. *)
Theorem caller_tables_share_their_keys (tr : list event) (s : state) :
  reachable tr s ->
  dom (ConferenceNametoCallerIDMapping s) = dom (ConferenceNametoCallTokenMapping s).
Proof.
  intros Hreach. by destruct (reachable_ledger tr s Hreach) as (_ & _ & L3 & _).
Qed.


(** X17.  In every run of the server, a call is only ever ended with status
    [completed], and only after the participants of a conference were
    listed, which happens on a join callback of the human agent alone. *)
Theorem calls_end_only_after_a_listing
    (tr : list event) (s : state) (j : nat) (callSid new_status : string) :
  reachable tr s ->
  tr !! j = Some (calls_update callSid new_status) ->
  new_status = "completed" /\
  exists i conference, i < j /\ tr !! i = Some (participants_list conference 20).
Proof.
  intros Hreach Hj.
  destruct (reachable_ledger tr s Hreach) as (_ & _ & _ & _ & _ & _ & _ & L8).
  exact (L8 j _ Hj).
Qed.

(** X18.  In every run of the server, a realtime socket is opened only on the
    address of a call for which the accept request was sent and a timer of
    delay 0 was then set, in this order. *)
Theorem sockets_follow_accept_and_timer
    (tr : list event) (s : state) (j : nat) (uri : string)
    (headers : list (string * string)) :
  reachable tr s ->
  tr !! j = Some (WebSocket_new uri headers) ->
  exists callId i1 i2,
    i1 < i2 /\ i2 < j /\ uri = wssUrl callId /\
    tr !! i1 = Some (fetch (acceptUrl callId) acceptInit) /\
    tr !! i2 = Some (setTimeout uri 0).
Proof.
  intros Hreach Hj.
  destruct (reachable_ledger tr s Hreach) as (_ & _ & _ & _ & _ & _ & _ & L8).
  destruct (L8 j _ Hj) as (i2 & H2 & Hset).
  destruct (L8 i2 _ Hset) as (_ & callId & i1 & H1 & Huri & Hfetch).
  exists callId, i1, i2. by repeat split.
Qed.

(** X19.  In every run of the server, a message is sent only on a socket that
    was opened before. *)
Theorem sends_go_to_opened_sockets
    (tr : list event) (s : state) (j : nat) (uri : string) (message : json) :
  reachable tr s ->
  tr !! j = Some (ws_send uri message) ->
  exists i headers, i < j /\ tr !! i = Some (WebSocket_new uri headers).
Proof.
  intros Hreach Hj.
  destruct (reachable_ledger tr s Hreach) as (_ & _ & _ & _ & _ & _ & _ & L8).
  exact (L8 j _ Hj).
Qed.

(** ** Whom the process calls *)

Lemma post_root_catch_known_party (e : exn) (s : state) :
  Forall known_party
         (snd (let (p, out) := post_root_catch e s in let (_, s') := p in (s', out))).
Proof.
  rewrite post_root_catch_run.
  destruct (is_invalid_signature e); cbn; by apply Forall_cons_2; [|apply Forall_nil_2].
Qed.

Lemma turn_known_party (s s' : state) (out : list event) :
  turn s out s' -> Forall known_party out.
Proof.
  intros Hturn. destruct Hturn; unfold exec.
  - rewrite post_incoming_call_run. cbv zeta. cbn [snd].
    repeat (apply Forall_cons_2; [by (done || (left; done))|]). apply Forall_nil_2.
  - rewrite post_conference_events_run. cbv zeta.
    destruct (_ && _); cbn [snd];
      [by apply Forall_cons_2; [|apply Forall_nil_2] | apply Forall_nil_2].
  - cbn. by apply Forall_cons_2; [|apply Forall_nil_2].
  - cbn. apply Forall_nil_2.
  - destruct a, ans; try discriminate; injection H0 as <-.
    + destruct r as [e|[]]; cbn;
        [by apply Forall_cons_2; [|apply Forall_nil_2] | apply Forall_nil_2].
    + rewrite findVirtualAgentandDisconnect_listed_run.
      destruct r as [e|participants]; cbn [snd];
        [by apply Forall_cons_2; [|apply Forall_nil_2]|].
      destruct (next_virtual_agent participants) as [[p remaining']|]; cbn [snd];
        [by apply Forall_cons_2; [|apply Forall_nil_2] | apply Forall_nil_2].
    + rewrite findVirtualAgentandDisconnect_updated_run.
      destruct r as [e|[]]; cbn [snd];
        [by apply Forall_cons_2; [|apply Forall_nil_2]|].
      destruct (next_virtual_agent remaining) as [[p remaining']|]; cbn [snd];
        repeat (apply Forall_cons_2; [done|]); apply Forall_nil_2.
    + destruct r as [e|[]]; cbn;
        [by apply Forall_cons_2; [|apply Forall_nil_2] | apply Forall_nil_2].
    + rewrite post_root_unwrapped_run.
      destruct r as [e|event]; [apply post_root_catch_known_party|].
      case_bool_decide;
        [|cbn [snd]; by apply Forall_cons_2; [|apply Forall_nil_2]].
      destruct (scan_sip_headers _) as [found|e]; [|apply post_root_catch_known_party].
      cbv zeta. cbn [snd].
      apply Forall_cons_2; [done|].
      apply Forall_cons_2; [split; [reflexivity | by eexists]|]. apply Forall_nil_2.
    + rewrite post_root_fetched_run.
      destruct r as [e|resp]; [apply post_root_catch_known_party|].
      destruct (resp_ok resp); cbn [snd];
        repeat (apply Forall_cons_2; [done|]); apply Forall_nil_2.
  - unfold floating, try_catch, websocketTask.
    destruct (URL_new uri) as [e|url]; cbn;
      by apply Forall_cons_2; [|apply Forall_nil_2].
  - cbn. repeat (apply Forall_cons_2; [done|]). apply Forall_nil_2.
  - destruct (on_message_shape uri data s)
      as [(out & -> & Hout)|(id & c & name & from & token & _ & _ & _ & ->)];
      cbn [snd].
    + eapply Forall_impl; [exact Hout|].
      intros e [He|[[x ->]|[m ->]]]; [by destruct e | done | done].
    + repeat (apply Forall_cons_2; [by (done || (right; done))|]). apply Forall_nil_2.
  - cbn. by apply Forall_cons_2; [|apply Forall_nil_2].
  - cbn. by apply Forall_cons_2; [|apply Forall_nil_2].
Qed.

Lemma reachable_known_party (tr : list event) (s : state) :
  reachable tr s -> Forall known_party tr.
Proof.
  induction 1 as [|tr s out s' _ IH Hturn]; [apply Forall_nil_2|].
  apply Forall_app. split; [exact IH | by eapply turn_known_party].
Qed.

(** X20.  In every run of the server, whatever the requests and messages it
    receives carry, a participant is only ever requested at one of two
    addresses: labelled [virtual agent], at the SIP address of the
    configured project with the name of its conference as header parameter;
    or labelled [human agent], at the configured number.  And the only HTTP
    request the process makes is the accept request of a realtime call. *)
Theorem only_configured_parties_are_called (tr : list event) (s : state) :
  reachable tr s ->
  (forall conference p,
      participants_create conference p ∈ tr ->
      (p_label p = "virtual agent" /\
       p_to p = "sip:" +:+ OPENAI_PROJECT_ID +:+
                "@sip.api.openai.com;transport=tls?X-conferenceName=" +:+ conference) \/
      (p_label p = "human agent" /\ p_to p = HUMAN_AGENT_NUMBER)) /\
  (forall url init,
      fetch url init ∈ tr ->
      init = acceptInit /\ exists callId, url = acceptUrl callId).
Proof.
  intros Hreach. pose proof (reachable_known_party tr s Hreach) as Hall.
  rewrite Forall_forall in Hall.
  split; [intros conference p Hin | intros url init Hin]; exact (Hall _ Hin).
Qed.

End Server.

(** ** The sample deployment, run *)

Lemma reachable_as DOMAIN OPENAI_API_KEY OPENAI_PROJECT_ID HUMAN_AGENT_NUMBER
    JSON_parse URL URL_new searchParams_get (tr tr' : list event) (s s' : state) :
  reachable DOMAIN OPENAI_API_KEY OPENAI_PROJECT_ID HUMAN_AGENT_NUMBER
            JSON_parse URL URL_new searchParams_get tr s ->
  tr = tr' -> s = s' ->
  reachable DOMAIN OPENAI_API_KEY OPENAI_PROJECT_ID HUMAN_AGENT_NUMBER
            JSON_parse URL URL_new searchParams_get tr' s'.
Proof. by intros H <- <-. Qed.

Lemma sample_session_reachable :
  reachable Sample.DOMAIN Sample.OPENAI_API_KEY Sample.OPENAI_PROJECT_ID
            Sample.HUMAN_AGENT_NUMBER Sample.JSON_parse Sample.URL Sample.URL_new
            Sample.searchParams_get Sample.session_trace Sample.session.
Proof.
  eapply reachable_as.
  - eapply reachable_turn.
    + eapply reachable_turn.
      * eapply reachable_turn.
        -- eapply reachable_turn.
           ++ apply reachable_initial.
           ++ apply (turn_root _ _ _ _ _ _ _ _ initial "" []).
        -- eapply (turn_answer _ _ _ _ _ _ _ _ _ 0 post_root_awaits_unwrap
                     (unwrapped (inr Sample.incoming))); reflexivity.
      * eapply (turn_answer _ _ _ _ _ _ _ _ _ 0 (post_root_awaits_fetch "RTC1")
                  (fetched (inr Sample.accepted))); reflexivity.
    + eapply (turn_timer _ _ _ _ _ _ _ _ _ 0 Sample.uri 0). reflexivity.
  - vm_compute. reflexivity.
  - vm_compute. reflexivity.
Qed.



Lemma correlation_precedes_session_sample :
  reachable Sample.DOMAIN Sample.OPENAI_API_KEY Sample.OPENAI_PROJECT_ID
            Sample.HUMAN_AGENT_NUMBER Sample.JSON_parse Sample.URL Sample.URL_new
            Sample.searchParams_get Sample.session_trace Sample.session /\
  (forall j e, Sample.session_trace !! j = Some e -> is_session_event e = true ->
               after_its_write Sample.OPENAI_API_KEY Sample.session_trace j e) /\
  (forall uri, uri ∈ sockets Sample.session ->
               session_ready Sample.session_trace Sample.session uri).
Proof.
  split; [exact sample_session_reachable|].
  exact (correlation_precedes_session
           Sample.DOMAIN Sample.OPENAI_API_KEY Sample.OPENAI_PROJECT_ID
           Sample.HUMAN_AGENT_NUMBER Sample.JSON_parse Sample.URL Sample.URL_new
           Sample.searchParams_get Sample.session_trace Sample.session
           sample_session_reachable).
Defined.

Lemma human_join_ends_the_virtual_agent_sample :
  (let parsedBody := Object_fromEntries (URLSearchParams Sample.human_joined) in
   parsedBody !! "ParticipantLabel" = Some "human agent" /\
   parsedBody !! "StatusCallbackEvent" = Some "participant-join" /\
   filter is_virtual_agent [Sample.customer; Sample.virtual_agent] =
     [Sample.virtual_agent]) /\
  terminations
    (snd (handle Sample.OPENAI_API_KEY (post_conference_events Sample.human_joined)
                 [listed (inr [Sample.customer; Sample.virtual_agent]); updated (inr tt)]
                 initial)) =
  [("CA456", "completed")] /\
  (let parsedBody := Object_fromEntries (URLSearchParams Sample.customer_joined) in
   ~ (parsedBody !! "ParticipantLabel" = Some "human agent" /\
      parsedBody !! "StatusCallbackEvent" = Some "participant-join")) /\
  filter is_provider_request
    (snd (handle Sample.OPENAI_API_KEY (post_conference_events Sample.customer_joined)
                 [listed (inr [Sample.customer; Sample.virtual_agent])] initial)) = [].
Proof.
  destruct (human_join_ends_the_virtual_agent Sample.OPENAI_API_KEY) as [Hjoin Hother].
  assert (Hno :
            let parsedBody := Object_fromEntries (URLSearchParams Sample.customer_joined) in
            ~ (parsedBody !! "ParticipantLabel" = Some "human agent" /\
               parsedBody !! "StatusCallbackEvent" = Some "participant-join")).
  { intros parsedBody [Hlabel _]. vm_compute in Hlabel. discriminate Hlabel. }
  split; [repeat split; vm_compute; reflexivity|].
  split.
  - apply (Hjoin Sample.human_joined [Sample.customer; Sample.virtual_agent]
                 Sample.virtual_agent (inr tt) initial);
      vm_compute; reflexivity.
  - split; [exact Hno|].
    exact (Hother Sample.customer_joined
                  [listed (inr [Sample.customer; Sample.virtual_agent])] initial Hno).
Defined.


Lemma only_handoff_calls_act_sample :
  let listen data :=
    on_message Sample.HUMAN_AGENT_NUMBER Sample.JSON_parse Sample.URL Sample.URL_new
               Sample.searchParams_get Sample.uri data Sample.session in
  (exists out,
      listen "not json" = (Normal tt, Sample.session, out) /\
      Forall (fun e => is_console e = true) out) /\
  (exists s' out, listen Sample.handoff_text = (Normal tt, s', out)) /\
  (exists response,
      Sample.JSON_parse Sample.handoff_text = inr response /\
      handoff_trigger response = true).
Proof.
  intros listen.
  destruct (only_handoff_calls_act
              Sample.HUMAN_AGENT_NUMBER Sample.JSON_parse Sample.URL Sample.URL_new
              Sample.searchParams_get Sample.uri "not json" Sample.session)
    as (Hsilent & _ & _).
  destruct (only_handoff_calls_act
              Sample.HUMAN_AGENT_NUMBER Sample.JSON_parse Sample.URL Sample.URL_new
              Sample.searchParams_get Sample.uri Sample.handoff_text Sample.session)
    as (_ & Hnormal & Honly).
  split; [apply Hsilent; vm_compute; exact I|].
  split; [exact Hnormal|].
  destruct Hnormal as (s' & out & Hrun).
  apply (Honly (Normal tt) s' out Hrun).
  right. vm_compute in Hrun. injection Hrun as <- <-.
  apply Exists_cons_tl, Exists_cons_tl, Exists_cons_hd. reflexivity.
Defined.

Lemma accepted_call_ack_carries_api_key_sample :
  let out :=
    snd (handle Sample.OPENAI_API_KEY (floating (post_root "" []))
                [unwrapped (inr Sample.incoming); fetched (inr Sample.accepted)] initial) in
  ((exists url init, fetch url init ∈ out) /\ resp_ok Sample.accepted = true) /\
  event_type Sample.incoming = Some RealtimeIncomingCall /\
  responses out = [Response 200 None [("Authorization", "Bearer sk-proj-sample")] None].
Proof.
  intros out.
  assert (Hissued : exists url init, fetch url init ∈ out).
  { exists (acceptUrl "RTC1"), (acceptInit Sample.OPENAI_API_KEY).
    apply list_elem_of_In. vm_compute. right. left. reflexivity. }
  split; [split; [exact Hissued | reflexivity]|].
  exact (accepted_call_ack_carries_api_key
           Sample.OPENAI_API_KEY "" [] Sample.incoming Sample.accepted [] initial
           Hissued eq_refl).
Defined.

Lemma engagement_instructions_always_sent_sample :
  (Sample.uri ∈ sockets Sample.session /\
   Sample.JSON_parse Sample.handoff_text = inr Sample.handoff_json /\
   handoff_trigger Sample.handoff_json = true) /\
  exists s' before,
    on_message Sample.HUMAN_AGENT_NUMBER Sample.JSON_parse Sample.URL Sample.URL_new
               Sample.searchParams_get Sample.uri Sample.handoff_text Sample.session =
    (Normal tt, s',
     before ++ [ws_send Sample.uri keepChatting; ws_send Sample.uri responseCreateEmpty]) /\
    Forall (fun e => forall u m, e <> ws_send u m) before.
Proof.
  assert (Hsocket : Sample.uri ∈ sockets Sample.session)
    by (apply list_elem_of_In; vm_compute; left; reflexivity).
  split; [split; [exact Hsocket | split; vm_compute; reflexivity]|].
  apply (engagement_instructions_always_sent
           Sample.DOMAIN Sample.OPENAI_API_KEY Sample.OPENAI_PROJECT_ID
           Sample.HUMAN_AGENT_NUMBER Sample.JSON_parse Sample.URL Sample.URL_new
           Sample.searchParams_get Sample.session_trace Sample.session
           Sample.uri Sample.handoff_text Sample.handoff_json
           sample_session_reachable Hsocket); vm_compute; reflexivity.
Defined.


(** The literal scenario: inbound call [CA123] from [+15551230000] with
    token [TOK1]; AI-accept event for [RTC1] carrying the conference name;
    the hand-off function call on the socket of [RTC1]; the join callback
    of the human agent. *)
Example literal_scenario :
  let intake :=
    exec (post_incoming_call Sample.DOMAIN Sample.OPENAI_PROJECT_ID Sample.inbound)
         initial in
  let accept :=
    handle Sample.OPENAI_API_KEY (floating (post_root "" []))
           [unwrapped (inr Sample.incoming); fetched (inr Sample.accepted)]
           (fst intake) in
  let opened :=
    exec (floating (websocketTask Sample.OPENAI_API_KEY Sample.URL Sample.URL_new
                                  Sample.uri))
         (with_timers (delete 0) (fst accept)) in
  let handoff :=
    exec (on_message Sample.HUMAN_AGENT_NUMBER Sample.JSON_parse Sample.URL
                     Sample.URL_new Sample.searchParams_get Sample.uri
                     Sample.handoff_text)
         (fst opened) in
  let joined :=
    handle Sample.OPENAI_API_KEY (post_conference_events Sample.human_joined)
           [listed (inr [Sample.customer; Sample.virtual_agent]); updated (inr tt)]
           (fst handoff) in
  read ConferenceNametoCallerID "CA123" (fst intake) = Some "+15551230000" /\
  read ConferenceNametoCallToken "CA123" (fst intake) = Some "TOK1" /\
  read callIDtoConferenceName "RTC1" (fst accept) = Some "CA123" /\
  sockets (fst opened) = [Sample.uri] /\
  filter is_create (snd handoff) =
    [participants_create "CA123"
       {| p_from := Some "+15551230000";
          p_label := "human agent";
          p_to := "+15551112222";
          p_earlyMedia := false;
          p_callToken := Some "TOK1";
          p_conferenceStatusCallback := None;
          p_conferenceStatusCallbackEvent := None |}] /\
  terminations (snd joined) = [("CA456", "completed")].
Proof.
  vm_compute. repeat split; reflexivity.
Qed.

(** ** Encoded text *)


Lemma escape_is_plain (c : ascii) :
  let hi := hex_digit (N_of_ascii c / 16) in
  let lo := hex_digit (N_of_ascii c mod 16) in
  hex_value hi = Some (N_of_ascii c / 16)%N /\
  hex_value lo = Some (N_of_ascii c mod 16)%N /\
  ascii_of_N (16 * (N_of_ascii c / 16) + N_of_ascii c mod 16) = c /\
  uri_component_char hi = true /\ uri_component_char lo = true /\
  (forall d, In d ["&"; "="; "+"; "/"; "?"; "#"]%char ->
             Ascii.eqb hi d = false /\ Ascii.eqb lo d = false).
Proof.
  destruct c as [[] [] [] [] [] [] [] []]; vm_compute;
    (repeat split; try reflexivity;
     match goal with H : _ |- _ => decompose [or] H; subst; try reflexivity; contradiction end).
Qed.









Lemma encodeURIComponent_chars (s : string) :
  all_chars uri_component_char (encodeURIComponent s) = true.
Proof.
  induction s as [|c r IH]; [reflexivity|].
  cbn [encodeURIComponent]. destruct (uri_unreserved c) eqn:Hc.
  - cbn [all_chars]. unfold uri_component_char at 1. by rewrite Hc, IH.
  - destruct (escape_is_plain c) as (_ & _ & _ & Hhi & Hlo & _).
    cbv zeta. cbn [all_chars]. by rewrite Hhi, Hlo, IH.
Qed.











(** ** The sample deployment: one whole call *)

Lemma sample_call_reachable :
  reachable Sample.DOMAIN Sample.OPENAI_API_KEY Sample.OPENAI_PROJECT_ID
            Sample.HUMAN_AGENT_NUMBER Sample.JSON_parse Sample.URL Sample.URL_new
            Sample.searchParams_get
            (Sample.call_trace (twimlResponse Sample.DOMAIN "CA123")) Sample.call_end.
Proof.
  eapply reachable_as.
  - eapply reachable_turn.
    { eapply reachable_turn.
      { eapply reachable_turn.
        { eapply reachable_turn.
          { eapply reachable_turn.
            { eapply reachable_turn.
              { eapply reachable_turn.
                { eapply reachable_turn.
                  { eapply reachable_turn.
                    { eapply reachable_turn.
                      { eapply reachable_turn.
                        { apply reachable_initial. }
                        apply (turn_incoming_call _ _ _ _ _ _ _ _ initial Sample.inbound). }
                      eapply (turn_answer _ _ _ _ _ _ _ _ _ 0 createParticipant_awaits_create
                                (created (inr tt))); reflexivity. }
                    apply (turn_root _ _ _ _ _ _ _ _ _ "" []). }
                  eapply (turn_answer _ _ _ _ _ _ _ _ _ 0 post_root_awaits_unwrap
                            (unwrapped (inr Sample.incoming))); reflexivity. }
                eapply (turn_answer _ _ _ _ _ _ _ _ _ 0 (post_root_awaits_fetch "RTC1")
                          (fetched (inr Sample.accepted))); reflexivity. }
              eapply (turn_timer _ _ _ _ _ _ _ _ _ 0 Sample.uri 0). reflexivity. }
            eapply (turn_message _ _ _ _ _ _ _ _ _ Sample.uri Sample.handoff_text).
            apply list_elem_of_In. vm_compute. left. reflexivity. }
          eapply (turn_answer _ _ _ _ _ _ _ _ _ 0 addHuman_awaits_create
                    (created (inr tt))); reflexivity. }
        apply (turn_conference_events _ _ _ _ _ _ _ _ _ Sample.human_joined). }
      eapply (turn_answer _ _ _ _ _ _ _ _ _ 0 findVirtualAgentandDisconnect_awaits_list
                (listed (inr [Sample.customer; Sample.virtual_agent]))); reflexivity. }
    eapply (turn_answer _ _ _ _ _ _ _ _ _ 0 (findVirtualAgentandDisconnect_awaits_update [])
              (updated (inr tt))); reflexivity.
  - vm_compute. reflexivity.
  - vm_compute. reflexivity.
Qed.


Lemma caller_tables_share_their_keys_sample :
  reachable Sample.DOMAIN Sample.OPENAI_API_KEY Sample.OPENAI_PROJECT_ID
            Sample.HUMAN_AGENT_NUMBER Sample.JSON_parse Sample.URL Sample.URL_new
            Sample.searchParams_get
            (Sample.call_trace (twimlResponse Sample.DOMAIN "CA123")) Sample.call_end /\
  dom (ConferenceNametoCallerIDMapping Sample.call_end) =
  dom (ConferenceNametoCallTokenMapping Sample.call_end).
Proof.
  split; [exact sample_call_reachable|].
  exact (caller_tables_share_their_keys
           Sample.DOMAIN Sample.OPENAI_API_KEY Sample.OPENAI_PROJECT_ID
           Sample.HUMAN_AGENT_NUMBER Sample.JSON_parse Sample.URL Sample.URL_new
           Sample.searchParams_get _ Sample.call_end sample_call_reachable).
Defined.


Lemma calls_end_only_after_a_listing_sample :
  let tr := Sample.call_trace (twimlResponse Sample.DOMAIN "CA123") in
  tr !! 14 = Some (calls_update "CA456" "completed") /\
  "completed" = "completed" /\
  exists i conference, i < 14 /\ tr !! i = Some (participants_list conference 20).
Proof.
  intros tr.
  assert (Hj : tr !! 14 = Some (calls_update "CA456" "completed")) by reflexivity.
  split; [exact Hj|].
  exact (calls_end_only_after_a_listing
           Sample.DOMAIN Sample.OPENAI_API_KEY Sample.OPENAI_PROJECT_ID
           Sample.HUMAN_AGENT_NUMBER Sample.JSON_parse Sample.URL Sample.URL_new
           Sample.searchParams_get tr Sample.call_end 14 "CA456" "completed"
           sample_call_reachable Hj).
Defined.

Lemma sockets_follow_accept_and_timer_sample :
  let tr := Sample.call_trace (twimlResponse Sample.DOMAIN "CA123") in
  let headers := [("Authorization", "Bearer sk-proj-sample");
                  ("OpenAI-Beta", "realtime=v1");
                  ("origin", "https://api.openai.com")] in
  tr !! 8 = Some (WebSocket_new Sample.uri headers) /\
  exists callId i1 i2,
    i1 < i2 /\ i2 < 8 /\ Sample.uri = wssUrl callId /\
    tr !! i1 = Some (fetch (acceptUrl callId) (acceptInit Sample.OPENAI_API_KEY)) /\
    tr !! i2 = Some (setTimeout Sample.uri 0).
Proof.
  intros tr headers.
  assert (Hj : tr !! 8 = Some (WebSocket_new Sample.uri headers)) by reflexivity.
  split; [exact Hj|].
  exact (sockets_follow_accept_and_timer
           Sample.DOMAIN Sample.OPENAI_API_KEY Sample.OPENAI_PROJECT_ID
           Sample.HUMAN_AGENT_NUMBER Sample.JSON_parse Sample.URL Sample.URL_new
           Sample.searchParams_get tr Sample.call_end 8 Sample.uri headers
           sample_call_reachable Hj).
Defined.

Lemma sends_go_to_opened_sockets_sample :
  let tr := Sample.call_trace (twimlResponse Sample.DOMAIN "CA123") in
  tr !! 11 = Some (ws_send Sample.uri keepChatting) /\
  exists i headers, i < 11 /\ tr !! i = Some (WebSocket_new Sample.uri headers).
Proof.
  intros tr.
  assert (Hj : tr !! 11 = Some (ws_send Sample.uri keepChatting)) by reflexivity.
  split; [exact Hj|].
  exact (sends_go_to_opened_sockets
           Sample.DOMAIN Sample.OPENAI_API_KEY Sample.OPENAI_PROJECT_ID
           Sample.HUMAN_AGENT_NUMBER Sample.JSON_parse Sample.URL Sample.URL_new
           Sample.searchParams_get tr Sample.call_end 11 Sample.uri keepChatting
           sample_call_reachable Hj).
Defined.


(** ** The sample deployment: single handlers *)


Lemma first_conference_header_decides_sample :
  event_data Sample.crowded ≫= sip_headers =
    Some ([Some (SipHeader (Some "Via") (Some "SIP/2.0/TLS"))] ++
          Some (SipHeader (Some "X-conferenceName") (Some "CA123")) ::
          [None; Some (SipHeader (Some "X-conferenceName") (Some "CA999"))]) /\
  read callIDtoConferenceName "RTC1"
       (fst (exec (floating (post_root_unwrapped Sample.OPENAI_API_KEY
                               (inr Sample.crowded))) initial)) =
  Some "CA123".
Proof.
  assert (Hheaders :
            event_data Sample.crowded ≫= sip_headers =
              Some ([Some (SipHeader (Some "Via") (Some "SIP/2.0/TLS"))] ++
                    Some (SipHeader (Some "X-conferenceName") (Some "CA123")) ::
                    [None; Some (SipHeader (Some "X-conferenceName") (Some "CA999"))]))
    by reflexivity.
  split; [exact Hheaders|].
  refine (proj1 (first_conference_header_decides
                   Sample.OPENAI_API_KEY Sample.crowded
                   [Some (SipHeader (Some "Via") (Some "SIP/2.0/TLS"))]
                   [None; Some (SipHeader (Some "X-conferenceName") (Some "CA999"))]
                   (SipHeader (Some "X-conferenceName") (Some "CA123")) initial
                   _ _ _) Hheaders).
  - reflexivity.
  - apply Forall_cons_2; [|apply Forall_nil_2].
    eexists. split; [reflexivity|]. cbn. discriminate.
  - reflexivity.
Defined.

Lemma null_sip_header_fails_the_webhook_sample :
  handle Sample.OPENAI_API_KEY (floating (post_root "" []))
         [unwrapped (inr Sample.null_first); fetched (inr Sample.accepted)] initial =
  (initial, [http_response (Response 500 None [] (Some "Server error"))]).
Proof.
  apply (null_sip_header_fails_the_webhook
           Sample.OPENAI_API_KEY "" [] Sample.null_first []
           [Some (SipHeader (Some "X-conferenceName") (Some "CA123"))]
           [fetched (inr Sample.accepted)] initial).
  - reflexivity.
  - reflexivity.
  - apply Forall_nil_2.
Defined.

Lemma accept_request_failure_sample :
  is_invalid_signature Sample.network_down = false /\
  handle Sample.OPENAI_API_KEY (floating (post_root "" []))
         [unwrapped (inr Sample.incoming); fetched (inl Sample.network_down)] initial =
  (write callIDtoConferenceName "RTC1" (Some "CA123") initial,
   [store_write callIDtoConferenceName "RTC1" (Some "CA123");
    fetch (acceptUrl "RTC1") (acceptInit Sample.OPENAI_API_KEY);
    http_response (Response 500 None [] (Some "Server error"))]).
Proof.
  split; [vm_compute; reflexivity|].
  apply (accept_request_failure
           Sample.OPENAI_API_KEY "" [] Sample.incoming Sample.network_down []
           initial (Some "CA123")).
  - reflexivity.
  - vm_compute. reflexivity.
Defined.

Lemma handoff_after_accept_without_conference_sample :
  let s1 :=
    fst (exec (floating (post_root_unwrapped Sample.OPENAI_API_KEY
                           (inr Sample.no_headers))) initial) in
  on_message Sample.HUMAN_AGENT_NUMBER Sample.JSON_parse Sample.URL Sample.URL_new
             Sample.searchParams_get Sample.uri Sample.handoff_text s1 =
  (Normal tt, s1,
   [console error [LString "Conference name is undefined for call ID:"; LString "RTC1"];
    ws_send Sample.uri keepChatting;
    ws_send Sample.uri responseCreateEmpty]).
Proof.
  apply (handoff_after_accept_without_conference
           Sample.OPENAI_API_KEY Sample.HUMAN_AGENT_NUMBER Sample.JSON_parse Sample.URL
           Sample.URL_new Sample.searchParams_get Sample.no_headers Sample.uri
           Sample.handoff_text Sample.handoff_json "call_id=RTC1" initial "RTC1" None);
    first [by left | vm_compute; reflexivity].
Defined.


Lemma all_listed_virtual_agents_are_ended_sample :
  let participants :=
    [Sample.virtual_agent; Sample.customer; Sample.second_virtual_agent] in
  let run :=
    handle Sample.OPENAI_API_KEY (post_conference_events Sample.human_joined)
           (listed (inr participants) ::
            map (fun _ => updated (inr tt)) (filter is_virtual_agent participants))
           initial in
  filter is_virtual_agent participants =
    [Sample.virtual_agent; Sample.second_virtual_agent] /\
  fst run = initial /\
  terminations (snd run) =
  map (fun p => (participant_callSid p, "completed"))
      (filter is_virtual_agent participants).
Proof.
  intros participants run.
  split; [vm_compute; reflexivity|].
  apply (all_listed_virtual_agents_are_ended
           Sample.OPENAI_API_KEY Sample.human_joined participants initial);
    vm_compute; reflexivity.
Defined.

Lemma watcher_stops_at_first_failure_sample :
  let participants :=
    [Sample.virtual_agent; Sample.customer; Sample.second_virtual_agent] in
  handle Sample.OPENAI_API_KEY (post_conference_events Sample.human_joined)
         [listed (inl Sample.network_down)] initial =
    (initial, [participants_list (Some "CA123") 20; unhandledRejection Sample.network_down]) /\
  (let run :=
     handle Sample.OPENAI_API_KEY (post_conference_events Sample.human_joined)
            [listed (inr participants); updated (inl Sample.network_down);
             updated (inr tt)] initial in
   fst run = initial /\
   terminations (snd run) = [("CA456", "completed")]).
Proof.
  intros participants.
  destruct (watcher_stops_at_first_failure
              Sample.OPENAI_API_KEY Sample.human_joined participants Sample.network_down
              [updated (inr tt)] initial) as [_ Hupdate]; [vm_compute; reflexivity..|].
  destruct (watcher_stops_at_first_failure
              Sample.OPENAI_API_KEY Sample.human_joined participants Sample.network_down
              [] initial) as [Hlist _]; [vm_compute; reflexivity..|].
  split; [exact Hlist | exact Hupdate].
Defined.


Lemma only_configured_parties_are_called_sample :
  let tr := Sample.call_trace (twimlResponse Sample.DOMAIN "CA123") in
  reachable Sample.DOMAIN Sample.OPENAI_API_KEY Sample.OPENAI_PROJECT_ID
            Sample.HUMAN_AGENT_NUMBER Sample.JSON_parse Sample.URL Sample.URL_new
            Sample.searchParams_get tr Sample.call_end /\
  (forall conference p,
      participants_create conference p ∈ tr ->
      (p_label p = "virtual agent" /\
       p_to p = "sip:" +:+ Sample.OPENAI_PROJECT_ID +:+
                "@sip.api.openai.com;transport=tls?X-conferenceName=" +:+ conference) \/
      (p_label p = "human agent" /\ p_to p = Sample.HUMAN_AGENT_NUMBER)) /\
  (forall url init,
      fetch url init ∈ tr ->
      init = acceptInit Sample.OPENAI_API_KEY /\ exists callId, url = acceptUrl callId).
Proof.
  split; [exact sample_call_reachable|].
  exact (only_configured_parties_are_called
           Sample.DOMAIN Sample.OPENAI_API_KEY Sample.OPENAI_PROJECT_ID
           Sample.HUMAN_AGENT_NUMBER Sample.JSON_parse Sample.URL Sample.URL_new
           Sample.searchParams_get _ Sample.call_end sample_call_reachable).
Defined.
